(** * Spectral logger (tock-teensy): ADC -> FFT -> moving average -> flash

    A shallow embedding of the spectral-logging application: the C function
    [movingAvg], the analysis loops of [main], the serialization of the
    averages into the write buffer, and the interaction of [main] with the
    kernel (ADC sampling, non-volatile write, completion upcall, delay). *)

From Stdlib Require Import ZArith Lia Bool List String.
From Stdlib Require Import Floats.SpecFloat.
From stdpp Require Import base list.

Local Open Scope Z_scope.

(** ** The C type [float]: IEEE 754 binary32

    Values are [spec_float]s at precision 24 and exponent bound 128, with
    the round-to-nearest-even operations of the Standard Library's
    specification of floating-point arithmetic.  NaN carries no payload. *)

Module F32.

Definition float : Type := spec_float.

Definition prec : Z := 24.
Definition emax : Z := 128.

Definition add : float -> float -> float := SFadd prec emax.
Definition sub : float -> float -> float := SFsub prec emax.
Definition div : float -> float -> float := SFdiv prec emax.

(** The conversion [(float) n] of a C [int]. *)
Definition of_int (n : Z) : float := binary_normalize prec emax n 0 false.

Definition zero : float := S754_zero false.
Definition one : float := Eval vm_compute in of_int 1.
Definition pinf : float := S754_infinity false.
Definition ninf : float := S754_infinity true.
Definition nan : float := S754_nan.

(** Neither an infinity nor a NaN. *)
Definition is_finite (x : float) : bool :=
  match x with
  | S754_zero _ | S754_finite _ _ _ => true
  | S754_infinity _ | S754_nan => false
  end.

Definition is_nan (x : float) : bool :=
  match x with S754_nan => true | _ => false end.

(** The 32-bit pattern of a value: sign, 8 exponent bits biased by 127,
    23 fraction bits.  NaN is the default quiet NaN. *)
Definition sign_bit (s : bool) : Z := if s then Z.shiftl 1 31 else 0.

Definition bits (x : float) : Z :=
  match x with
  | S754_zero s => sign_bit s
  | S754_infinity s => Z.lor (sign_bit s) 0x7f800000
  | S754_nan => 0x7fc00000
  | S754_finite s m e =>
      if Zpos (digits2_pos m) =? prec
      then Z.lor (sign_bit s)
             (Z.lor (Z.shiftl (e + 150) 23) (Zpos m - Z.shiftl 1 23))
      else Z.lor (sign_bit s) (Zpos m)
  end.

(** The four bytes of the object representation, least significant first
    (the target is little-endian). *)
Definition bytes (x : float) : list Z :=
  let b := bits x in
  [Z.land b 255; Z.land (Z.shiftr b 8) 255;
   Z.land (Z.shiftr b 16) 255; Z.land (Z.shiftr b 24) 255].

End F32.

#[global] Instance float_inhabited : Inhabited F32.float := populate F32.zero.

(** ** [movingAvg]

<<
float movingAvg(float prev_avg, int num_samples, int new_val)
{
  return prev_avg + ((float)(new_val) - prev_avg) / num_samples;
}
>>
    [num_samples] is converted to [float] by the usual arithmetic
    conversions before the division. *)

Definition movingAvg (prev_avg : F32.float) (num_samples : Z) (new_val : Z)
  : F32.float :=
  F32.add prev_avg
    (F32.div (F32.sub (F32.of_int new_val) prev_avg) (F32.of_int num_samples)).

(** ** Constants of [main] *)

Definition adc_length : nat := 500.
Definition channel : Z := 0.
Definition freq : Z := 125000.
Definition sizeof_float : nat := 4.
Definition flash_len : nat := (sizeof_float * 8)%nat.

(** [memcpy(dst, src, n)] on byte lists. *)
Definition memcpy (dst src : list Z) (n : nat) : list Z :=
  take n src ++ drop n dst.

(** The object representation of a [float] array. *)
Definition float_array_bytes (a : list F32.float) : list Z :=
  concat (map F32.bytes a).

(** ** The arrays of [main] and the global [wdone] *)

Inductive pc : Type :=
| AtAllow                 (* nonvolatile_storage_internal_write_buffer *)
| AtSubscribe             (* nonvolatile_storage_internal_write_done_subscribe *)
| AtSample (i : nat)      (* adc_sample_buffer_sync, call number i of the cycle *)
| AtWrite                 (* nonvolatile_storage_internal_write *)
| AtYield                 (* yield inside yield_for(&wdone) *)
| AtDelay                 (* delay_ms(500) *)
| Returned (ret : Z).     (* main has returned *)

Record app : Type := mkApp {
  at_pc : pc;
  adc_buffer : list Z;            (* uint16_t adc_buffer[500] *)
  fft_buf : list Z;               (* int fft_buf[16] *)
  fft_mag : list Z;               (* int fft_mag[8] *)
  avg_fft_mag : list F32.float;   (* float avg_fft_mag[8] *)
  writebuf : list Z;              (* uint8_t writebuf[32] *)
  wdone : bool                    (* bool wdone *)
}.

Definition set_pc (p : pc) (a : app) : app :=
  mkApp p (adc_buffer a) (fft_buf a) (fft_mag a) (avg_fft_mag a) (writebuf a)
    (wdone a).

Definition set_wdone (b : bool) (a : app) : app :=
  mkApp (at_pc a) (adc_buffer a) (fft_buf a) (fft_mag a) (avg_fft_mag a)
    (writebuf a) b.

Definition set_adc_buffer (samples : list Z) (a : app) : app :=
  mkApp (at_pc a) samples (fft_buf a) (fft_mag a) (avg_fft_mag a) (writebuf a)
    (wdone a).

(** What [main] prints: the format string and its arguments. *)
Inductive output : Type :=
| Printf (fmt : string) (args : list Z).

(** The calls [main] makes into the kernel and what comes back.  [upcall]
    tells whether the subscribed callback [write_done] ran while the call
    was blocked in the kernel; only calls that yield can run it.  [samples]
    is what [adc_buffer] holds after the call, failed or not. *)
Inductive syscall : Type :=
| nonvolatile_storage_internal_write_buffer (len : nat)
| nonvolatile_storage_internal_write_done_subscribe
| adc_sample_buffer_sync (chan frq : Z) (len : nat)
| nonvolatile_storage_internal_write (offset : Z) (len : Z)
| yield
| delay_ms (ms : Z).

Inductive reply : Type :=
| RetInt (ret : Z)
| Sampled (err : Z) (samples : list Z) (upcall : bool)
| Yielded (upcall : bool)
| Delayed (upcall : bool).

(** The callback:
<<
static void write_done(...) { wdone = true; }
>> *)
Definition write_done (a : app) : app := set_wdone true a.

Definition run_upcall (upcall : bool) (a : app) : app :=
  if upcall then write_done a else a.

Section Pipeline.

(** [fft(fft_buf, fft_mag)] comes from [fft.h], which is not among the
    sources: the magnitudes it stores into [fft_mag], as a function of
    the window in [fft_buf].  [fft_buf] is rewritten in full before every
    call, so what [fft] leaves in it is never read. *)
Variable fft : list Z -> list Z.

(** <<
    for (i=k*16; i<(k+1)*16; i++) fft_buf[i % 16] = adc_buffer[i];
    >> *)
Definition copy_window (k : nat) (adc_buffer fft_buf : list Z) : list Z :=
  foldl (fun fb i => <[(i mod 16)%nat := adc_buffer !!! i]> fb) fft_buf
    (seq (k * 16)%nat 16).

(** <<
    avg_fft_mag[l] = movingAvg(avg_fft_mag[l], k, fft_mag[l]);
    >> *)
Definition update_bin (k : nat) (fft_mag : list Z) (avg : list F32.float)
    (l : nat) : list F32.float :=
  <[l := movingAvg (avg !!! l) (Z.of_nat k) (fft_mag !!! l)]> avg.

(** [for (l=3; l<8; l++)] *)
Definition update_bins (k : nat) (fft_mag : list Z) (avg : list F32.float)
  : list F32.float :=
  foldl (update_bin k fft_mag) avg (seq 3 5).

(** The body of the loop over [k]: one window. *)
Definition window (a : app) (k : nat) : app :=
  let fb := copy_window k (adc_buffer a) (fft_buf a) in
  let mag := fft fb in
  mkApp (at_pc a) (adc_buffer a) fb mag
    (update_bins k mag (avg_fft_mag a)) (writebuf a) (wdone a).

(** [for (k=0; k<adc_length/16; k++)] *)
Definition pass (a : app) : app :=
  foldl window a (seq 0 (adc_length / 16)%nat).

(** [for (j=0; j<4; j++)] *)
Definition analysis (a : app) : app :=
  foldl (fun a (_ : nat) => pass a) a (seq 0 4).

(** [memcpy(writebuf, (void* )&avg_fft_mag[0], flash_len); wdone = false;] *)
Definition stage (a : app) : app :=
  mkApp (at_pc a) (adc_buffer a) (fft_buf a) (fft_mag a) (avg_fft_mag a)
    (memcpy (writebuf a) (float_array_bytes (avg_fft_mag a)) flash_len)
    false.

(** Modelled from the spec: [yield_for] is a library routine that is not
    among the sources.  It yields to the kernel until the flag is true,
    [while (!wdone) yield();], and has no timeout. *)
Definition yield_for (a : app) : app :=
  if wdone a then set_pc AtDelay a else set_pc AtYield a.

(** The call [main] is about to make; [None] once it has returned. *)
Definition next (a : app) : option syscall :=
  match at_pc a with
  | AtAllow => Some (nonvolatile_storage_internal_write_buffer flash_len)
  | AtSubscribe => Some nonvolatile_storage_internal_write_done_subscribe
  | AtSample _ => Some (adc_sample_buffer_sync channel freq adc_length)
  | AtWrite => Some (nonvolatile_storage_internal_write 0 2000)
  | AtYield => Some yield
  | AtDelay => Some (delay_ms 500)
  | Returned _ => None
  end.

(** [main] from the return of a call up to its next call: the new state
    and what was printed on the way.  [None] when the reply is not one
    the pending call can produce. *)
Definition resume (a : app) (r : reply) : option (app * list output) :=
  match at_pc a, r with
  | AtAllow, RetInt ret =>
      Some (set_pc AtSubscribe a,
            if ret =? 0 then [] else [Printf "Write buffer error\n" []])
  | AtSubscribe, RetInt ret =>
      Some (set_pc (AtSample 0) a,
            if ret =? 0 then []
            else [Printf "ERROR setting write done callback\n" []])
  | AtSample i, Sampled err samples upcall =>
      let a := set_adc_buffer samples (run_upcall upcall a) in
      let out := if err <? 0 then [Printf "Error sampling ADC: %d\n" [err]]
                 else [] in
      if (S i <? 4)%nat then Some (set_pc (AtSample (S i)) a, out)
      else Some (set_pc AtWrite (stage (analysis a)), out)
  | AtWrite, RetInt ret =>
      if ret =? 0 then Some (yield_for a, [])
      else Some (set_pc (Returned ret) a, [Printf "\tERROR calling write\n" []])
  | AtYield, Yielded upcall =>
      Some (yield_for (run_upcall upcall a), [])
  | AtDelay, Delayed upcall =>
      Some (set_pc (AtSample 0) (run_upcall upcall a), [])
  | _, _ => None
  end.

(** [main] driven by a list of replies, with everything it printed. *)
Fixpoint run (a : app) (rs : list reply) : app * list output :=
  match rs with
  | [] => (a, [])
  | r :: rs =>
      match resume a r with
      | Some (a', out) => let '(a'', out') := run a' rs in (a'', out ++ out')
      | None => (a, [])
      end
  end.

End Pipeline.

(** [main] at its first statement.  The arrays are automatic variables
    without initializers: their first contents are whatever the stack
    holds, here parameters. *)
Definition boot (adc0 fft_buf0 fft_mag0 : list Z) (avg0 : list F32.float)
    (writebuf0 : list Z) : app :=
  mkApp AtAllow adc0 fft_buf0 fft_mag0 avg0 writebuf0 false.

(** ** The kernel side of the calls *)

(** Modelled from the spec: the non-volatile storage driver, the ADC driver
    and the scheduler are not among the sources.  The contract of the store
    is that [write_buffer] stages a buffer, [write] commits a write, and the
    subscribed completion callback fires exactly once per committed write;
    callbacks only run while the application is blocked in a yielding call.
    The kernel may accept or refuse any request. *)
Record kernel : Type := mkKernel {
  staged : option nat;    (* length of the buffer shared for writing *)
  subscribed : bool;      (* a completion callback is registered *)
  in_flight : nat         (* committed writes whose completion is still due *)
}.

Definition kernel0 : kernel := mkKernel None false 0.

(** Running the completion callback consumes one committed write. *)
Definition deliver (upcall : bool) (k : kernel) : option kernel :=
  if upcall then
    if subscribed k && (0 <? in_flight k)%nat
    then Some (mkKernel (staged k) true (pred (in_flight k)))
    else None
  else Some k.

(** The kernel state after call [c] returned with reply [r]; [None] when
    the contract does not allow that reply. *)
Definition serve (k : kernel) (c : syscall) (r : reply) : option kernel :=
  match c, r with
  | nonvolatile_storage_internal_write_buffer len, RetInt ret =>
      Some (if ret =? 0 then mkKernel (Some len) (subscribed k) (in_flight k)
            else k)
  | nonvolatile_storage_internal_write_done_subscribe, RetInt ret =>
      Some (if ret =? 0 then mkKernel (staged k) true (in_flight k) else k)
  | adc_sample_buffer_sync _ _ len, Sampled _ samples upcall =>
      if (length samples =? len)%nat then deliver upcall k else None
  | nonvolatile_storage_internal_write _ _, RetInt ret =>
      Some (if ret =? 0 then mkKernel (staged k) (subscribed k) (S (in_flight k))
            else k)
  | yield, Yielded upcall => deliver upcall k
  | delay_ms _, Delayed upcall => deliver upcall k
  | _, _ => None
  end.

(** ** The application and the kernel together *)

Record event : Type := mkEvent {
  ev_call : syscall;          (* the call made *)
  ev_reply : reply;           (* what it returned *)
  ev_out : list output;       (* what main printed before its next call *)
  ev_at : pc                  (* where main stands afterwards *)
}.

Definition system : Type := app * kernel.

Section Execution.

Variable fft : list Z -> list Z.

Definition step (s : system) (r : reply) : option (system * event) :=
  match next s.1 with
  | None => None
  | Some c =>
      match serve s.2 c r, resume fft s.1 r with
      | Some k', Some (a', out) => Some ((a', k'), mkEvent c r out (at_pc a'))
      | _, _ => None
      end
  end.

(** An execution: the replies of the kernel, one per call, and the trace
    of events they produce. *)
Fixpoint exec (s : system) (rs : list reply) : option (system * list event) :=
  match rs with
  | [] => Some (s, [])
  | r :: rs =>
      match step s r with
      | None => None
      | Some (s', e) =>
          match exec s' rs with
          | None => None
          | Some (s'', tr) => Some (s'', e :: tr)
          end
      end
  end.

End Execution.

(** A write was committed by this event. *)
Definition issues (e : event) : bool :=
  match ev_call e, ev_reply e with
  | nonvolatile_storage_internal_write _ _, RetInt ret => ret =? 0
  | _, _ => false
  end.

(** [yield_for(&wdone)] returned in this event: main read [wdone] as true
    and went on to [delay_ms]. *)
Definition observes (e : event) : bool :=
  match ev_at e with AtDelay => true | _ => false end.

(** No write is committed while the completion of an earlier one has not
    been observed; [pending] tells whether one is at the start. *)
Fixpoint single_flight (pending : bool) (tr : list event) : bool :=
  match tr with
  | [] => true
  | e :: tr =>
      negb (issues e && pending) &&
      single_flight (if observes e then false
                     else if issues e then true else pending) tr
  end.

(** [yield_for] returned after a [yield] during which [write_done] ran. *)
Definition completion_observed (e : event) : bool :=
  implb (observes e)
    match ev_call e, ev_reply e with
    | yield, Yielded upcall => upcall
    | _, _ => false
    end.

(** The number of committed writes whose callback has not run, by where
    main stands: one inside [yield_for], none elsewhere. *)
Definition outstanding (p : pc) : nat :=
  match p with AtYield => 1 | _ => 0 end.

Definition waiting (p : pc) : bool :=
  match p with AtYield => true | _ => false end.

(** What holds between two calls: the kernel owes a completion exactly
    while main is inside [yield_for], and [wdone] is false before the write
    and while waiting. *)
Definition inv (s : system) : Prop :=
  in_flight s.2 = outstanding (at_pc s.1) ∧
  match at_pc s.1 with
  | AtWrite | AtYield => wdone s.1 = false
  | _ => True
  end.


(** A sampling reply from its error code, samples and upcall flag. *)
Definition sampled (x : Z * list Z * bool) : reply :=
  Sampled x.1.1 x.1.2 x.2.


(** ** The averaging loop seen from outside *)

(** The update of a bin as [main] performs it at window [k]. *)
Definition update (avg : F32.float) (new_value : Z) (k : nat) : F32.float :=
  movingAvg avg (Z.of_nat k) new_value.

(** [n] successive updates with the same value, at indices 0, ..., n-1. *)
Definition constant_updates (v : Z) (n : nat) (avg : F32.float) : F32.float :=
  foldl (fun a k => update a v k) avg (seq 0 n).

(** The bins the averaging loop ranges over, and the others. *)
Definition tracked_bins : list nat := seq 3 5.

Definition untracked (l : nat) : Prop := (l < 3 ∨ 8 ≤ l)%nat.

(** The windows of one cycle in the order [main] visits them: the index
    [k] of each, which is also the count handed to [movingAvg]. *)
Definition cycle_counts : list nat :=
  concat (replicate 4 (seq 0 (adc_length / 16)%nat)).

(** ** Statements of the specification *)

(** The incremental mean as the specification words it:
    avg' = avg + (new_value - avg) / (observation_index + 1). *)
Definition incremental_mean (avg : F32.float) (new_value observation_index : Z)
  : F32.float :=
  F32.add avg
    (F32.div (F32.sub (F32.of_int new_value) avg)
       (F32.of_int (observation_index + 1))).

(** The persistence record as the specification words it: the averages of
    the tracked bins only, in ascending bin index. *)
Definition persistence_record (avg : list F32.float) : list Z :=
  float_array_bytes ((fun l => avg !!! l) <$> tracked_bins).

Definition record_holds_tracked_bins (a : app) : Prop :=
  writebuf (stage a) = persistence_record (avg_fft_mag a) ∧
  length (writebuf (stage a)) = (length tracked_bins * sizeof_float)%nat.

(** The propagation policy as the specification words it: after a failed
    acquisition and after a failed write request alike, main logs the
    failure and goes on to a next call. *)
Definition loop_proceeds_on_failure (fft : list Z → list Z) : Prop :=
  (∀ a i err samples upcall,
     at_pc a = AtSample i → err < 0 →
     ∃ a' out, resume fft a (Sampled err samples upcall) = Some (a', out) ∧
               out ≠ [] ∧ is_Some (next a')) ∧
  (∀ a ret,
     at_pc a = AtWrite → ret ≠ 0 →
     ∃ a' out, resume fft a (RetInt ret) = Some (a', out) ∧
               out ≠ [] ∧ is_Some (next a')).


(** After a failed subscription: no callback is registered, [wdone] is
    false, and main is in its loop but not past [yield_for]. *)
Definition unsubscribed (s : system) : Prop :=
  subscribed s.2 = false ∧ wdone s.1 = false ∧
  match at_pc s.1 with
  | AtAllow | AtSubscribe | AtDelay => False
  | _ => True
  end.

Definition unobserved (e : event) : bool := negb (observes e).

(** ** The SPI loopback test

<<
#define BUF_SIZE 200
char rbuf[BUF_SIZE];
char wbuf[BUF_SIZE];
>>
    [char] is the unsigned 8-bit type of the target: a value in 0..255,
    with wrap-around on increment.  The two arrays are globals and start
    zeroed. *)

Module Spi.

Definition BUF_SIZE : nat := 200.

Definition to_char (n : Z) : Z := n mod 256.

(** What a run of the callback ends in. *)
Inductive cb_result : Type :=
| Failed (i : nat)            (* the mismatch branch, which never returns *)
| Continue (wbuf : list Z).   (* the next transfer, with the new [wbuf] *)

(** The first loop of [write_cb]: the first index at which the two buffers
    differ.
<<
for (i = 0; i < BUF_SIZE; i++) { if (rbuf[i] != wbuf[i]) { ... } }
>> *)
Definition first_mismatch (rbuf wbuf : list Z) : option nat :=
  find (fun i => negb (rbuf !!! i =? wbuf !!! i)) (seq 0 BUF_SIZE).

(** The second loop of [write_cb]: [for (...) wbuf[i]++;] *)
Definition increment (wbuf : list Z) : list Z :=
  foldl (fun w i => <[i := to_char (w !!! i + 1)]> w) wbuf (seq 0 BUF_SIZE).

Definition write_cb (rbuf wbuf : list Z) : cb_result :=
  match first_mismatch rbuf wbuf with
  | Some i => Failed i
  | None => Continue (increment wbuf)
  end.

(** The globals, the LED, what was printed, the number of transfers
    started, and whether the program spins in [while (1) {}]. *)
Record state : Type := mkState {
  rbuf : list Z;
  wbuf : list Z;
  led0 : bool;
  printed : list output;
  transfers : nat;
  spinning : bool
}.

(** [main]: [for (...) wbuf[i] = i;], the configuration of the bus, and
    the first [spi_read_write(wbuf, rbuf, BUF_SIZE, write_cb, NULL)]. *)
Definition main : state :=
  mkState (replicate BUF_SIZE 0)
    (foldl (fun w i => <[i := to_char (Z.of_nat i)]> w)
       (replicate BUF_SIZE 0) (seq 0 BUF_SIZE))
    false [] 1 false.

(** The completion of a transfer: the driver has stored the bytes received
    in [rbuf] and calls [write_cb], which on success increments [wbuf],
    waits, and starts the next transfer. *)
Definition transfer_done (received : list Z) (s : state) : state :=
  if spinning s then s
  else
    match write_cb received (wbuf s) with
    | Failed i =>
        mkState received (wbuf s) true
          (printed s ++
           [Printf "Receive failed at character %i\r\n" [Z.of_nat i]])
          (transfers s) true
    | Continue w =>
        mkState received w (led0 s) (printed s) (S (transfers s)) false
    end.

(** The bus in loopback: every transfer receives what it sends. *)
Definition loopback (n : nat) (s : state) : state :=
  Nat.iter n (fun s => transfer_done (wbuf s) s) s.

End Spi.

(** ** The flash read/write test

    [main] of the storage test writes a constant block, reads it back and
    dumps a buffer, five times. *)

Module Flash.

Definition len : nat := 500.

Inductive pc : Type :=
| AtReadBuffer        (* nonvolatile_storage_internal_read_buffer *)
| AtReadSubscribe     (* nonvolatile_storage_internal_read_done_subscribe *)
| AtWriteBuffer       (* nonvolatile_storage_internal_write_buffer *)
| AtWriteSubscribe    (* nonvolatile_storage_internal_write_done_subscribe *)
| AtWrite             (* nonvolatile_storage_internal_write *)
| AtYieldWrite        (* yield inside yield_for(&wdone) *)
| AtRead              (* nonvolatile_storage_internal_read *)
| AtYieldRead         (* yield inside yield_for(&rdone) *)
| AtDelay             (* delay_ms(300) *)
| Returned (ret : Z).

Record app : Type := mkApp {
  at_pc : pc;
  num_runs : Z;             (* int num_runs *)
  readbuf : list Z;         (* uint8_t readbuf[len] *)
  writebuf : list Z;        (* uint8_t writebuf[len] *)
  rdone : bool;
  wdone : bool
}.

Inductive syscall : Type :=
| read_buffer (n : nat)
| read_done_subscribe
| write_buffer (n : nat)
| write_done_subscribe
| write (offset : Z) (n : nat)
| read (offset : Z) (n : nat)
| yield
| delay_ms (ms : Z).

(** The callback a yielding call ran before it returned: [write_done],
    or [read_done] after the driver stored the data read in [readbuf]. *)
Inductive upcall : Type :=
| NoUpcall
| WriteDone
| ReadDone (data : list Z).

Inductive reply : Type :=
| RetInt (ret : Z)
| Woken (u : upcall).

Definition set_pc (p : pc) (a : app) : app :=
  mkApp p (num_runs a) (readbuf a) (writebuf a) (rdone a) (wdone a).

Definition run_upcall (u : upcall) (a : app) : app :=
  match u with
  | NoUpcall => a
  | WriteDone =>
      mkApp (at_pc a) (num_runs a) (readbuf a) (writebuf a) (rdone a) true
  | ReadDone data =>
      mkApp (at_pc a) (num_runs a) data (writebuf a) true (wdone a)
  end.

Definition next (a : app) : option syscall :=
  match at_pc a with
  | AtReadBuffer => Some (read_buffer len)
  | AtReadSubscribe => Some read_done_subscribe
  | AtWriteBuffer => Some (write_buffer len)
  | AtWriteSubscribe => Some write_done_subscribe
  | AtWrite => Some (write 0 len)
  | AtRead => Some (read 0 len)
  | AtYieldWrite | AtYieldRead => Some yield
  | AtDelay => Some (delay_ms 300)
  | Returned _ => None
  end.

Section Main.

(** [readbuf[len]], which the dump loop prints, lies one past the end of
    [readbuf]: what is there is not determined by the program.  It is a
    parameter, by round and by position in the loop. *)
Variable past_end : Z → nat → Z.

(** <<
    for(int i=0; i<len; i++){ writebuf[i] = 4+num_runs; }
    >> *)
Definition fill (n : Z) (wb : list Z) : list Z :=
  foldl (fun w i => <[i := (4 + n) mod 256]> w) wb (seq 0 len).

(** <<
    printf("Readbuf:");
    for(int i=0; i< len; i++){ printf("%d ", readbuf[len]); }
    printf("\n");
    >> *)
Definition dump (n : Z) : list output :=
  Printf "Readbuf:" [] ::
  ((fun i => Printf "%d " [past_end n i]) <$> seq 0 len) ++
  [Printf "\n" []].

(** The head of [while(num_runs < 5)]: the next round up to its write
    request, or the end of [main]. *)
Definition loop_head (a : app) : app * list output :=
  if num_runs a <? 5 then
    (mkApp AtWrite (num_runs a) (readbuf a) (fill (num_runs a) (writebuf a))
       (rdone a) false, [])
  else (set_pc (Returned 0) a, [Printf "Done\n" []]).

(** After [yield_for(&rdone)]: the dump, [num_runs += 1], [delay_ms]. *)
Definition after_read (a : app) : app * list output :=
  (mkApp AtDelay (num_runs a + 1) (readbuf a) (writebuf a) (rdone a)
     (wdone a), dump (num_runs a)).

(** After [yield_for(&wdone)]: [rdone = false] and the read request. *)
Definition after_write (a : app) : app :=
  mkApp AtRead (num_runs a) (readbuf a) (writebuf a) false (wdone a).

Definition setup_error (ret : Z) (msg : string) : list output :=
  if ret =? 0 then [] else [Printf msg []].

Definition resume (a : app) (r : reply) : option (app * list output) :=
  match at_pc a, r with
  | AtReadBuffer, RetInt ret =>
      Some (set_pc AtReadSubscribe a, setup_error ret "Read buffer error\n")
  | AtReadSubscribe, RetInt ret =>
      Some (set_pc AtWriteBuffer a,
            setup_error ret "ERROR setting read done callback\n")
  | AtWriteBuffer, RetInt ret =>
      Some (set_pc AtWriteSubscribe a, setup_error ret "Write buffer error\n")
  | AtWriteSubscribe, RetInt ret =>
      let '(a', out) := loop_head a in
      Some (a', setup_error ret "ERROR setting write done callback\n" ++
                [Printf "Begin\n" []] ++ out)
  | AtWrite, RetInt ret =>
      if ret =? 0 then
        Some (if wdone a then after_write a else set_pc AtYieldWrite a, [])
      else Some (set_pc (Returned ret) a, [Printf "\tERROR calling write\n" []])
  | AtYieldWrite, Woken u =>
      let a := run_upcall u a in
      Some (if wdone a then after_write a else set_pc AtYieldWrite a, [])
  | AtRead, RetInt ret =>
      if ret =? 0 then
        Some (if rdone a then after_read a else (set_pc AtYieldRead a, []))
      else Some (set_pc (Returned ret) a, [Printf "\tERROR calling write\n" []])
  | AtYieldRead, Woken u =>
      let a := run_upcall u a in
      Some (if rdone a then after_read a else (set_pc AtYieldRead a, []))
  | AtDelay, Woken u => Some (loop_head (run_upcall u a))
  | _, _ => None
  end.

(** [main] driven by a list of replies: the final state, what it printed,
    and the calls that were answered. *)
Fixpoint run (a : app) (rs : list reply)
  : app * list output * list syscall :=
  match rs with
  | [] => (a, [], [])
  | r :: rs =>
      match next a, resume a r with
      | Some c, Some (a', out) =>
          let '(a'', out', cs) := run a' rs in (a'', out ++ out', c :: cs)
      | _, _ => (a, [], [])
      end
  end.

End Main.

(** [main] at its first statement, with the first contents of its two
    arrays. *)
Definition boot (readbuf0 writebuf0 : list Z) : app :=
  mkApp AtReadBuffer 0 readbuf0 writebuf0 false false.

Definition is_write (c : syscall) : bool :=
  match c with write _ _ => true | _ => false end.

Definition is_read (c : syscall) : bool :=
  match c with read _ _ => true | _ => false end.

(** What holds between two calls, with the numbers of write and read
    requests answered so far: a round's requests are counted as soon as
    they are answered, and the block to write is all 4 + [num_runs]. *)
Definition flash_inv (a : app) (writes reads : Z) : Prop :=
  length (writebuf a) = len ∧
  match at_pc a with
  | AtReadBuffer | AtReadSubscribe | AtWriteBuffer | AtWriteSubscribe =>
      num_runs a = 0 ∧ writes = 0 ∧ reads = 0
  | AtWrite =>
      0 ≤ num_runs a < 5 ∧ writes = num_runs a ∧ reads = num_runs a ∧
      writebuf a = replicate len (4 + num_runs a) ∧ wdone a = false
  | AtYieldWrite =>
      0 ≤ num_runs a < 5 ∧ writes = num_runs a + 1 ∧ reads = num_runs a
  | AtRead =>
      0 ≤ num_runs a < 5 ∧ writes = num_runs a + 1 ∧ reads = num_runs a ∧
      rdone a = false
  | AtYieldRead =>
      0 ≤ num_runs a < 5 ∧ writes = num_runs a + 1 ∧ reads = num_runs a + 1
  | AtDelay =>
      1 ≤ num_runs a ≤ 5 ∧ writes = num_runs a ∧ reads = num_runs a
  | Returned ret =>
      0 ≤ num_runs a ≤ 5 ∧ 0 ≤ writes ≤ 5 ∧ 0 ≤ reads ≤ writes ∧
      (ret = 0 → writes = 5 ∧ reads = 5)
  end.

Definition count (p : syscall → bool) (cs : list syscall) : Z :=
  Z.of_nat (length (filter (fun c => p c = true) cs)).

(** A run without faults: every request accepted, every completion
    delivered at the first [yield], the flash returning [data]. *)
Definition round (data : list Z) : list reply :=
  [RetInt 0; Woken WriteDone; RetInt 0; Woken (ReadDone data);
   Woken NoUpcall].

Definition fault_free (data : list Z) : list reply :=
  [RetInt 0; RetInt 0; RetInt 0; RetInt 0] ++
  round data ++ round data ++ round data ++ round data ++ round data.

(** The state with the contents of [readbuf] dropped. *)
Definition forget (a : app) : app :=
  mkApp (at_pc a) (num_runs a) [] (writebuf a) (rdone a) (wdone a).

(** A reply with the data of a read completion blanked. *)
Definition blank (r : reply) : reply :=
  match r with
  | Woken (ReadDone _) => Woken (ReadDone [])
  | _ => r
  end.

End Flash.

(** ** A sample run *)

Module Scenario.

(** A stand-in for [fft]: every bin gets the sum of the magnitudes of the
    window. *)
Definition l1_spectrum (w : list Z) : list Z :=
  replicate 8 (foldr (fun x s => Z.abs x + s) 0 w).

Definition boot_with (avg0 : list F32.float) : app :=
  boot (replicate 500 0) (replicate 16 0) (replicate 8 0) avg0
    (replicate 32 0).

Definition boot0 : app := boot_with (replicate 8 F32.one).

Definition sampling (v : Z) : list reply :=
  [Sampled 0 (replicate 500 0) false; Sampled (-3) (replicate 500 0) false;
   Sampled 0 (replicate 500 0) false; Sampled 0 (replicate 500 v) false].

Definition first_cycle : list reply :=
  [RetInt 0; RetInt 0] ++ sampling 5.

Definition two_cycles : list reply :=
  [RetInt 0; RetInt 0] ++
  sampling 5 ++ [RetInt 0; Yielded false; Yielded true; Delayed false] ++
  sampling 1 ++ [RetInt 0; Yielded true; Delayed false].

End Scenario.

(** * Properties *)

(** ** Folds *)

Lemma foldl_nil {A B} (f : A → B → A) (a : A) : foldl f a [] = a.
Proof. reflexivity. Qed.

Lemma foldl_cons {A B} (f : A → B → A) (a : A) (b : B) (bs : list B) :
  foldl f a (b :: bs) = foldl f (f a b) bs.
Proof. reflexivity. Qed.

(** ** Arithmetic of [movingAvg] *)

Section MovingAvg.

Implicit Types (a x y : F32.float) (s : bool) (v : Z).

Lemma of_int_0 : F32.of_int 0 = S754_zero false.
Proof. reflexivity. Qed.

Lemma of_int_1 : F32.of_int 1 = S754_finite false 8388608 (-23).
Proof. reflexivity. Qed.

Lemma add_nan_l y : F32.add S754_nan y = S754_nan.
Proof. reflexivity. Qed.

Lemma add_nan_r x : F32.add x S754_nan = S754_nan.
Proof. by destruct x. Qed.

Lemma add_inf_r x s : F32.is_finite (F32.add x (S754_infinity s)) = false.
Proof. by destruct x as [| [] | |], s. Qed.

Lemma sub_nan_r x : F32.sub x S754_nan = S754_nan.
Proof. by destruct x. Qed.

(** Dividing by [(float) 0] never gives a finite quotient. *)
Lemma div_by_zero x s : F32.is_finite (F32.div x (S754_zero s)) = false.
Proof. by destruct x. Qed.

(** Subtracting an infinity gives the opposite infinity or NaN. *)
Lemma sub_inf_r x s :
  F32.sub x (S754_infinity s) = S754_infinity (negb s) ∨
  F32.sub x (S754_infinity s) = S754_nan.
Proof. destruct x as [| [] | |], s; simpl; auto. Qed.

Lemma movingAvg_nan k v : movingAvg S754_nan k v = S754_nan.
Proof. reflexivity. Qed.

Lemma movingAvg_zero_samples a v :
  F32.is_finite (movingAvg a 0 v) = false.
Proof.
  unfold movingAvg. rewrite of_int_0.
  pose proof (div_by_zero (F32.sub (F32.of_int v) a) false) as Hd.
  destruct (F32.div _ _) as [| s | |]; try discriminate.
  - apply add_inf_r.
  - by rewrite add_nan_r.
Qed.

(** From an infinity or a NaN, the update at count 1 gives NaN. *)
Lemma movingAvg_one_sample a v :
  F32.is_finite a = false → movingAvg a 1 v = S754_nan.
Proof.
  intros Ha. unfold movingAvg. rewrite of_int_1.
  destruct a as [| s | |]; try discriminate; [|by rewrite sub_nan_r].
  destruct (sub_inf_r (F32.of_int v) s) as [-> | ->]; [|reflexivity].
  by destruct s.
Qed.

(** The first two updates of a pass, at counts 0 and 1. *)
Lemma movingAvg_counts_0_1 a v v' :
  movingAvg (movingAvg a 0 v) 1 v' = S754_nan.
Proof. apply movingAvg_one_sample, movingAvg_zero_samples. Qed.

Lemma updates_keep_nan v (ks : list nat) :
  foldl (fun a k => update a v k) S754_nan ks = S754_nan.
Proof. induction ks as [|k ks IH]; [reflexivity|]. exact IH. Qed.

End MovingAvg.

(** C1.  The update of a bin at observation index n does not return
    a + (v - a) / (n + 1): [main] hands the window index itself to
    [movingAvg] as [num_samples], so the division is by n.  At a = 0, v = 1
    the code gives +infinity at n = 0 where the formula gives 1, and gives
    1 at n = 1 where the formula gives 1/2.  [movingAvg] itself agrees with
    the formula when it is handed n + 1. *)
Theorem update_divides_by_index :
  update F32.zero 1 0 = F32.pinf ∧
  incremental_mean F32.zero 1 0 = F32.one ∧
  update F32.zero 1 1 = F32.one ∧
  incremental_mean F32.zero 1 1 = S754_finite false 8388608 (-24) ∧
  (∀ k mag avg l,
     update_bin k mag avg l = <[l := update (avg !!! l) (mag !!! l) k]> avg) ∧
  (∀ a v n, movingAvg a (n + 1) v = incremental_mean a v n).
Proof. by repeat split. Qed.

(** C2.  The update at observation index 0 never returns the new value:
    whatever the prior average and the value, the result of the division by
    zero is an infinity or a NaN. *)
Theorem first_update_is_not_finite (a : F32.float) (v : Z) :
  F32.is_finite (update a v 0) = false.
Proof. apply movingAvg_zero_samples. Qed.

(** C8.  With a constant new value v, the running average after n >= 1
    updates at indices 0, ..., n-1 is not v, from every starting average:
    it is an infinity or a NaN, and after one more update it is NaN. *)
Theorem constant_updates_give_nan (a : F32.float) (v : Z) (n : nat) :
  (1 ≤ n)%nat →
  F32.is_finite (constant_updates v n a) = false ∧
  constant_updates v (S n) a = F32.nan.
Proof.
  intros Hn.
  assert (∀ m, constant_updates v (S (S m)) a = F32.nan) as Hnan.
  { intros m. unfold constant_updates. cbn [seq]. rewrite !foldl_cons.
    unfold update at 2 3. rewrite movingAvg_counts_0_1.
    apply updates_keep_nan. }
  destruct n as [|[|n]]; [lia| |].
  - split; [apply movingAvg_zero_samples | apply Hnan].
  - by rewrite !Hnan.
Qed.

Lemma constant_updates_give_nan_witness :
  (1 ≤ 3)%nat ∧
  F32.is_finite (constant_updates 7 3 (F32.of_int 7)) = false ∧
  constant_updates 7 4 (F32.of_int 7) = F32.nan.
Proof.
  split; [lia | apply (constant_updates_give_nan (F32.of_int 7) 7 3); lia].
Defined.

(** ** The averaging stage *)

Lemma foldl_invariant {A B} (P : A → Prop) (f : A → B → A) (bs : list B) :
  (∀ a b, b ∈ bs → P a → P (f a b)) → ∀ a, P a → P (foldl f a bs).
Proof.
  induction bs as [|b bs IH]; intros Hf a Ha; [exact Ha|].
  apply IH.
  - intros a' b' Hb'. apply Hf. by right.
  - apply Hf; [by left | exact Ha].
Qed.

Section Averaging.

Variable fft : list Z → list Z.

Lemma passes_of_cycle : seq 0 4 = [0; 1; 2; 3]%nat.
Proof. reflexivity. Qed.

Lemma update_bins_length k mag (avg : list F32.float) :
  length (update_bins k mag avg) = length avg.
Proof.
  unfold update_bins.
  apply (foldl_invariant (fun x => length x = length avg)); [|done].
  intros a l _ Ha. unfold update_bin. by rewrite length_insert.
Qed.

Lemma update_bins_untracked k mag (avg : list F32.float) l :
  untracked l → update_bins k mag avg !! l = avg !! l.
Proof.
  intros Hl. unfold update_bins.
  apply (foldl_invariant (fun x => x !! l = avg !! l)); [|done].
  intros a l' Hl' Ha. unfold update_bin.
  rewrite list_lookup_insert_ne; [exact Ha|].
  apply elem_of_seq in Hl'. unfold untracked in Hl. lia.
Qed.

(** On the eight-element array the loop over [l] rewrites bins 3 to 7,
    each from its own previous value. *)
Lemma update_bins_eight k mag (a0 a1 a2 a3 a4 a5 a6 a7 : F32.float) :
  update_bins k mag [a0; a1; a2; a3; a4; a5; a6; a7] =
  [a0; a1; a2;
   movingAvg a3 (Z.of_nat k) (mag !!! 3%nat);
   movingAvg a4 (Z.of_nat k) (mag !!! 4%nat);
   movingAvg a5 (Z.of_nat k) (mag !!! 5%nat);
   movingAvg a6 (Z.of_nat k) (mag !!! 6%nat);
   movingAvg a7 (Z.of_nat k) (mag !!! 7%nat)].
Proof. reflexivity. Qed.

Lemma eight_elements {A} (xs : list A) :
  length xs = 8%nat →
  ∃ a0 a1 a2 a3 a4 a5 a6 a7, xs = [a0; a1; a2; a3; a4; a5; a6; a7].
Proof.
  intros H. do 8 (destruct xs as [|? xs]; [discriminate|]).
  destruct xs; [|discriminate]. by repeat eexists.
Qed.

Lemma update_bins_tracked k mag (avg : list F32.float) l :
  length avg = 8%nat → (3 ≤ l < 8)%nat →
  update_bins k mag avg !! l =
  Some (movingAvg (avg !!! l) (Z.of_nat k) (mag !!! l)).
Proof.
  intros Hlen Hl.
  destruct (eight_elements avg Hlen) as (a0&a1&a2&a3&a4&a5&a6&a7&->).
  rewrite update_bins_eight.
  do 3 (destruct l as [|l]; [lia|]).
  do 5 (destruct l as [|l]; [reflexivity|]). lia.
Qed.

Lemma window_avg a k :
  avg_fft_mag (window fft a k) =
  update_bins k (fft (copy_window k (adc_buffer a) (fft_buf a)))
    (avg_fft_mag a).
Proof. reflexivity. Qed.

Lemma window_length a k :
  length (avg_fft_mag (window fft a k)) = length (avg_fft_mag a).
Proof. rewrite window_avg. apply update_bins_length. Qed.

Lemma window_untracked a k l :
  untracked l → avg_fft_mag (window fft a k) !! l = avg_fft_mag a !! l.
Proof. intros Hl. rewrite window_avg. by apply update_bins_untracked. Qed.

Lemma windows_length a ks :
  length (avg_fft_mag (foldl (window fft) a ks)) = length (avg_fft_mag a).
Proof.
  apply (foldl_invariant
           (fun x => length (avg_fft_mag x) = length (avg_fft_mag a)));
    [|done].
  intros x k _ Hx. by rewrite window_length.
Qed.

Lemma windows_untracked a ks l :
  untracked l →
  avg_fft_mag (foldl (window fft) a ks) !! l = avg_fft_mag a !! l.
Proof.
  intros Hl.
  apply (foldl_invariant
           (fun x => avg_fft_mag x !! l = avg_fft_mag a !! l)); [|done].
  intros x k _ Hx. by rewrite window_untracked.
Qed.

(** The four passes of a cycle are one run over [cycle_counts]. *)
Lemma analysis_schedule a :
  analysis fft a = foldl (window fft) a cycle_counts.
Proof.
  unfold analysis, cycle_counts, pass.
  generalize (seq 0 (adc_length / 16)%nat). intros ks.
  rewrite passes_of_cycle, !foldl_cons, foldl_nil.
  change (concat (replicate 4 ks)) with (ks ++ ks ++ ks ++ ks ++ []).
  by rewrite 4!foldl_app, foldl_nil.
Qed.



Lemma analysis_length a :
  length (avg_fft_mag (analysis fft a)) = length (avg_fft_mag a).
Proof. rewrite analysis_schedule. apply windows_length. Qed.

Lemma analysis_untracked a l :
  untracked l → avg_fft_mag (analysis fft a) !! l = avg_fft_mag a !! l.
Proof. intros Hl. rewrite analysis_schedule. by apply windows_untracked. Qed.

Lemma analysis_wdone a : wdone (analysis fft a) = wdone a.
Proof.
  rewrite analysis_schedule.
  apply (foldl_invariant (fun x => wdone x = wdone a)); done.
Qed.


Lemma window_tracked a k l :
  length (avg_fft_mag a) = 8%nat → (3 ≤ l < 8)%nat →
  avg_fft_mag (window fft a k) !! l =
  Some (movingAvg (avg_fft_mag a !!! l) (Z.of_nat k)
          (fft (copy_window k (adc_buffer a) (fft_buf a)) !!! l)).
Proof. intros Hlen Hl. rewrite window_avg. by apply update_bins_tracked. Qed.

(** Once a tracked bin holds NaN it holds NaN for good. *)
Lemma windows_keep_nan a ks l :
  length (avg_fft_mag a) = 8%nat → (3 ≤ l < 8)%nat →
  avg_fft_mag a !! l = Some F32.nan →
  avg_fft_mag (foldl (window fft) a ks) !! l = Some F32.nan.
Proof.
  intros Hlen Hl Hnan.
  apply (foldl_invariant
           (fun x => length (avg_fft_mag x) = 8%nat ∧
                     avg_fft_mag x !! l = Some F32.nan)); [|done].
  intros x k _ [Hx Hxl]. split; [by rewrite window_length|].
  rewrite window_tracked by done.
  by rewrite (list_lookup_total_correct _ _ _ Hxl).
Qed.

Lemma windows_of_pass :
  seq 0 (adc_length / 16)%nat = (0 :: 1 :: seq 2 29)%nat.
Proof. reflexivity. Qed.

(** Every pass starts again at count 0, and the second window of the pass
    turns the infinity or NaN of the first into NaN. *)
Lemma pass_tracked_nan a l :
  length (avg_fft_mag a) = 8%nat → (3 ≤ l < 8)%nat →
  avg_fft_mag (pass fft a) !! l = Some F32.nan.
Proof.
  intros Hlen Hl. unfold pass. rewrite windows_of_pass, !foldl_cons.
  apply windows_keep_nan; [by rewrite !window_length | done |].
  rewrite window_tracked by (by rewrite ?window_length).
  rewrite (list_lookup_total_correct _ _ _ (window_tracked a 0 l Hlen Hl)).
  f_equal. apply movingAvg_counts_0_1.
Qed.

Lemma analysis_tracked_nan a l :
  length (avg_fft_mag a) = 8%nat → (3 ≤ l < 8)%nat →
  avg_fft_mag (analysis fft a) !! l = Some F32.nan.
Proof.
  intros Hlen Hl. unfold analysis.
  rewrite passes_of_cycle, !foldl_cons, foldl_nil.
  apply pass_tracked_nan; [|done].
  unfold pass. by rewrite !windows_length.
Qed.

End Averaging.

(** C7.  The count handed to [movingAvg] is the window index [k] of the
    pass, not a count of observations: within one cycle it runs from 0 to
    30 and starts again at 0 for each of the four passes, so it decreases
    from 30 to 0 between consecutive windows of the same cycle. *)
Theorem observation_count_restarts (fft : list Z → list Z) (a : app)
    (k l : nat) :
  length (avg_fft_mag a) = 8%nat → (3 ≤ l < 8)%nat →
  avg_fft_mag (window fft a k) !! l =
    Some (movingAvg (avg_fft_mag a !!! l) (Z.of_nat k)
            (fft (copy_window k (adc_buffer a) (fft_buf a)) !!! l)) ∧
  analysis fft a = foldl (window fft) a cycle_counts ∧
  cycle_counts !! 30%nat = Some 30%nat ∧
  cycle_counts !! 31%nat = Some 0%nat ∧
  length (filter (fun k => k = 0%nat) cycle_counts) = 4%nat.
Proof.
  intros Hlen Hl. split; [by apply window_tracked|].
  split; [apply analysis_schedule|]. by vm_compute.
Qed.

Lemma observation_count_restarts_witness :
  length (avg_fft_mag Scenario.boot0) = 8%nat ∧ (3 ≤ 3 < 8)%nat ∧
  cycle_counts !! 31%nat = Some 0%nat.
Proof.
  split; [reflexivity|]. split; [lia|].
  apply (observation_count_restarts Scenario.l1_spectrum Scenario.boot0 0 3);
    [reflexivity | lia].
Defined.

(** ** The steps of [main] *)

Section Steps.

Variable fft : list Z → list Z.

Lemma set_pc_avg p a : avg_fft_mag (set_pc p a) = avg_fft_mag a.
Proof. reflexivity. Qed.

Lemma set_adc_buffer_avg samples a :
  avg_fft_mag (set_adc_buffer samples a) = avg_fft_mag a.
Proof. reflexivity. Qed.

Lemma stage_avg a : avg_fft_mag (stage a) = avg_fft_mag a.
Proof. reflexivity. Qed.

Lemma yield_for_avg a : avg_fft_mag (yield_for a) = avg_fft_mag a.
Proof. unfold yield_for. by destruct (wdone a). Qed.

Lemma run_upcall_avg u a : avg_fft_mag (run_upcall u a) = avg_fft_mag a.
Proof. by destruct u. Qed.

(** Only the averaging stage writes [avg_fft_mag]. *)
Lemma resume_avg a r a' out :
  resume fft a r = Some (a', out) →
  avg_fft_mag a' = avg_fft_mag a ∨
  ∃ b, avg_fft_mag b = avg_fft_mag a ∧
       avg_fft_mag a' = avg_fft_mag (analysis fft b).
Proof.
  unfold resume. intros H.
  destruct (at_pc a), r; try discriminate.
  - injection H as <- <-. by left.
  - injection H as <- <-. by left.
  - destruct (S i <? 4)%nat; injection H as <- <-.
    + left. rewrite set_pc_avg, set_adc_buffer_avg. apply run_upcall_avg.
    + right. exists (set_adc_buffer samples (run_upcall upcall a)).
      rewrite set_pc_avg, stage_avg, set_adc_buffer_avg.
      split; [apply run_upcall_avg | reflexivity].
  - destruct (ret =? 0); injection H as <- <-; left;
      [apply yield_for_avg | reflexivity].
  - injection H as <- <-. left.
    by rewrite yield_for_avg, run_upcall_avg.
  - injection H as <- <-. left. rewrite set_pc_avg. apply run_upcall_avg.
Qed.

Lemma resume_untracked a r a' out l :
  resume fft a r = Some (a', out) → untracked l →
  avg_fft_mag a' !! l = avg_fft_mag a !! l.
Proof.
  intros H Hl. destruct (resume_avg _ _ _ _ H) as [-> | (b & Hb & ->)];
    [done|].
  by rewrite analysis_untracked, Hb.
Qed.

Lemma resume_length a r a' out :
  resume fft a r = Some (a', out) →
  length (avg_fft_mag a') = length (avg_fft_mag a).
Proof.
  intros H. destruct (resume_avg _ _ _ _ H) as [-> | (b & Hb & ->)];
    [done|].
  by rewrite analysis_length, Hb.
Qed.

Lemma run_untracked a rs l :
  untracked l → avg_fft_mag (run fft a rs).1 !! l = avg_fft_mag a !! l.
Proof.
  intros Hl. revert a. induction rs as [|r rs IH]; intros a; [done|].
  cbn [run]. destruct (resume fft a r) as [[a' out]|] eqn:Hr; [|done].
  specialize (IH a'). destruct (run fft a' rs) as [a'' out'].
  cbn in *. rewrite IH. by eapply resume_untracked.
Qed.

End Steps.

(** C9.  The averaging stage changes bins 3 to 7 only: the bins outside
    that range, 0, 1 and 2 among them, hold after the stage, and after any
    number of steps of [main], what they held before. *)
Theorem untracked_bins_unchanged (fft : list Z → list Z) (a : app)
    (rs : list reply) (l : nat) :
  untracked l →
  avg_fft_mag (analysis fft a) !! l = avg_fft_mag a !! l ∧
  avg_fft_mag (run fft a rs).1 !! l = avg_fft_mag a !! l.
Proof.
  intros Hl. split; [by apply analysis_untracked | by apply run_untracked].
Qed.

Lemma untracked_bins_unchanged_witness :
  untracked 2 ∧
  avg_fft_mag (run Scenario.l1_spectrum Scenario.boot0 Scenario.two_cycles).1
    !! 2%nat = Some F32.one.
Proof.
  assert (untracked 2) as H by (left; lia). split; [exact H|].
  exact (proj2 (untracked_bins_unchanged Scenario.l1_spectrum Scenario.boot0
                  Scenario.two_cycles 2 H)).
Defined.

(** ** The record staged for writing *)

Lemma bytes_length (x : F32.float) : length (F32.bytes x) = sizeof_float.
Proof. reflexivity. Qed.

Lemma float_array_bytes_cons (x : F32.float) (avg : list F32.float) :
  float_array_bytes (x :: avg) = F32.bytes x ++ float_array_bytes avg.
Proof. reflexivity. Qed.

Lemma float_array_bytes_length (avg : list F32.float) :
  length (float_array_bytes avg) = (length avg * sizeof_float)%nat.
Proof.
  induction avg as [|x avg IH]; [reflexivity|].
  rewrite float_array_bytes_cons, length_app, bytes_length, IH.
  cbn [length]. lia.
Qed.

(** Bin [l] occupies the four bytes from offset 4 l on. *)
Lemma float_array_bytes_slice (avg : list F32.float) (l : nat) (x : F32.float) :
  avg !! l = Some x →
  take sizeof_float (drop (l * sizeof_float) (float_array_bytes avg)) =
  F32.bytes x.
Proof.
  revert l. induction avg as [|y avg IH]; intros l Hl; [done|].
  rewrite float_array_bytes_cons. destruct l as [|l].
  - injection Hl as ->. rewrite drop_0.
    by rewrite take_app_length' by (by rewrite bytes_length).
  - replace (S l * sizeof_float)%nat
      with (length (F32.bytes y) + l * sizeof_float)%nat
      by (rewrite bytes_length; lia).
    rewrite drop_app_add. by apply IH.
Qed.

Lemma stage_writebuf (a : app) :
  length (avg_fft_mag a) = 8%nat → length (writebuf a) = flash_len →
  writebuf (stage a) = float_array_bytes (avg_fft_mag a).
Proof.
  intros Havg Hwb. unfold stage, memcpy. cbn [writebuf].
  rewrite take_ge, drop_ge, app_nil_r; [done | by rewrite Hwb |].
  by rewrite float_array_bytes_length, Havg.
Qed.

(** C5 as the code has it.  The staged record holds the averages of all
    eight bins, 0 to 7, tracked or not, in ascending bin index at four bytes
    each: its size is 8 x 4 = 32 bytes, and bin l occupies the bytes from
    offset 4 l on. *)
Theorem record_holds_all_bins (a : app) (l : nat) :
  length (avg_fft_mag a) = 8%nat → length (writebuf a) = flash_len →
  (l < 8)%nat →
  writebuf (stage a) = float_array_bytes (avg_fft_mag a) ∧
  length (writebuf (stage a)) = (8 * sizeof_float)%nat ∧
  take sizeof_float (drop (l * sizeof_float) (writebuf (stage a))) =
    F32.bytes (avg_fft_mag a !!! l).
Proof.
  intros Havg Hwb Hl. rewrite stage_writebuf by done.
  split; [done|]. split; [by rewrite float_array_bytes_length, Havg|].
  apply float_array_bytes_slice, list_lookup_lookup_total_lt. lia.
Qed.

Lemma record_holds_all_bins_witness :
  length (avg_fft_mag Scenario.boot0) = 8%nat ∧
  length (writebuf Scenario.boot0) = flash_len ∧
  length (writebuf (stage Scenario.boot0)) = (8 * sizeof_float)%nat.
Proof.
  split; [reflexivity|]. split; [reflexivity|].
  apply (record_holds_all_bins Scenario.boot0 0); [reflexivity..|lia].
Defined.

(** C5 as stated fails: the record is not made of the five tracked bins,
    and its size is not 5 x 4 bytes. *)
Lemma record_is_not_tracked_bins_only :
  ¬ record_holds_tracked_bins Scenario.boot0.
Proof. intros [_ H]. vm_compute in H. discriminate. Qed.

(** ** Requests and failures *)

(** C4.  The write request of a cycle is at offset 0, but its length is
    the constant 2000 and not [flash_len], the 32 bytes staged. *)
Theorem write_length_is_not_staged_length (a : app) :
  at_pc a = AtWrite →
  next a = Some (nonvolatile_storage_internal_write 0 2000) ∧
  2000 ≠ Z.of_nat flash_len ∧
  flash_len = 32%nat.
Proof. intros Hpc. unfold next. rewrite Hpc. by repeat split. Qed.

Lemma write_length_is_not_staged_length_witness :
  at_pc (set_pc AtWrite Scenario.boot0) = AtWrite ∧
  next (set_pc AtWrite Scenario.boot0) =
    Some (nonvolatile_storage_internal_write 0 2000) ∧
  2000 ≠ Z.of_nat flash_len ∧ flash_len = 32%nat.
Proof.
  split; [reflexivity|].
  apply (write_length_is_not_staged_length (set_pc AtWrite Scenario.boot0)).
  reflexivity.
Defined.

(** C6 as the code has it.  A failed acquisition is logged and main goes on
    to the next sampling call or to the write; a refused write is logged
    and main returns the error code, after which it makes no call. *)
Theorem failure_policy (fft : list Z → list Z) (a b : app) (i : nat)
    (err : Z) (samples : list Z) (upcall : bool) (ret : Z) :
  at_pc a = AtSample i → err < 0 → at_pc b = AtWrite → ret ≠ 0 →
  (∃ a', resume fft a (Sampled err samples upcall) =
           Some (a', [Printf "Error sampling ADC: %d\n" [err]]) ∧
         (at_pc a' = AtSample (S i) ∨ at_pc a' = AtWrite)) ∧
  resume fft b (RetInt ret) =
    Some (set_pc (Returned ret) b, [Printf "\tERROR calling write\n" []]) ∧
  next (set_pc (Returned ret) b) = None.
Proof.
  intros Ha Herr Hb Hret. split; [|split; [|reflexivity]].
  - unfold resume. rewrite Ha.
    apply Z.ltb_lt in Herr. rewrite Herr.
    destruct (S i <? 4)%nat; eexists; (split; [reflexivity|]); auto.
  - unfold resume. rewrite Hb.
    apply Z.eqb_neq in Hret. by rewrite Hret.
Qed.

Lemma failure_policy_witness :
  -3 < 0 ∧ -1 ≠ 0 ∧
  resume Scenario.l1_spectrum (set_pc AtWrite Scenario.boot0) (RetInt (-1)) =
    Some (set_pc (Returned (-1)) (set_pc AtWrite Scenario.boot0),
          [Printf "\tERROR calling write\n" []]).
Proof.
  split; [lia|]. split; [lia|].
  apply (failure_policy Scenario.l1_spectrum
           (set_pc (AtSample 0) Scenario.boot0)
           (set_pc AtWrite Scenario.boot0) 0 (-3) [] false (-1));
    [reflexivity | lia | reflexivity | lia].
Defined.

(** C6 as stated fails: after a refused write main does not go on. *)
Lemma write_failure_ends_main :
  ¬ loop_proceeds_on_failure Scenario.l1_spectrum.
Proof.
  intros [_ H].
  destruct (H (set_pc AtWrite Scenario.boot0) (-1)) as (a' & out & Hr & _ & Hn);
    [reflexivity | lia |].
  injection Hr as <- _. by destruct Hn.
Qed.

(** ** One write in flight *)

Section SingleFlight.

Variable fft : list Z → list Z.

Lemma deliver_none k k' :
  in_flight k = 0%nat → ∀ u, deliver u k = Some k' → u = false ∧ k' = k.
Proof.
  intros Hk [] H; unfold deliver in H.
  - rewrite Hk, andb_false_r in H. discriminate.
  - by injection H as <-.
Qed.

Lemma step_inv s r s' e :
  inv s → step fft s r = Some (s', e) →
  inv s' ∧
  negb (issues e && waiting (at_pc s.1)) = true ∧
  waiting (at_pc s'.1) =
    (if observes e then false
     else if issues e then true else waiting (at_pc s.1)) ∧
  completion_observed e = true.
Proof.
  destruct s as [a k]. intros [Hk Hw]. cbn [fst snd] in *.
  unfold step, next. cbn [fst snd].
  destruct (at_pc a) eqn:Hpc; cbn [outstanding] in Hk;
    destruct r as [rv|err samples u|u|u]; cbn [serve]; try done;
    unfold resume; rewrite Hpc.
  - intros [= <- <-]. unfold inv. cbn. by destruct (rv =? 0).
  - intros [= <- <-]. unfold inv. cbn. by destruct (rv =? 0).
  - destruct (length samples =? adc_length)%nat; [|done].
    destruct (deliver u k) as [k'|] eqn:Hd; [|done].
    apply deliver_none in Hd as [-> ->]; [|done].
    by destruct (S i <? 4)%nat; intros [= <- <-]; unfold inv;
      cbn -[analysis].
  - unfold yield_for.
    destruct (rv =? 0) eqn:Hrv; intros [= <- <-]; unfold inv; cbn.
    + rewrite Hw. cbn. by rewrite Hk, Hw, Hrv.
    + by rewrite Hrv.
  - destruct u; unfold deliver.
    + destruct (subscribed k); rewrite Hk; [|done].
      by intros [= <- <-]; unfold inv.
    + intros [= <- <-]. unfold inv, yield_for. cbn. rewrite Hw. cbn.
      by rewrite Hw.
  - destruct (deliver u k) as [k'|] eqn:Hd; [|done].
    apply deliver_none in Hd as [-> ->]; [|done].
    by intros [= <- <-]; unfold inv.
Qed.

Lemma exec_inv rs : ∀ s s' tr,
  inv s → exec fft s rs = Some (s', tr) →
  inv s' ∧ single_flight (waiting (at_pc s.1)) tr = true ∧
  forallb completion_observed tr = true.
Proof.
  induction rs as [|r rs IH]; intros s s' tr Hs; cbn [exec].
  - by intros [= <- <-].
  - destruct (step fft s r) as [[s1 e]|] eqn:Hstep; [|done].
    destruct (exec fft s1 rs) as [[s2 tr2]|] eqn:Hexec; [|done].
    intros [= <- <-].
    destruct (step_inv _ _ _ _ Hs Hstep) as (Hs1 & Hissue & Hwait & Hobs).
    destruct (IH _ _ _ Hs1 Hexec) as (Hs2 & Hsf & Hall).
    split; [done|]. cbn [single_flight forallb].
    by rewrite Hissue, <-Hwait, Hsf, Hobs, Hall.
Qed.

End SingleFlight.

(** C3.  In every execution from the start of [main], against a kernel
    that runs the completion callback once per committed write: the kernel
    owes a completion exactly while main is inside [yield_for] and owes
    none at any other call, the sampling calls of a new cycle among them,
    so at most one write is outstanding; no write is committed before the
    completion of the previous one was observed; and [yield_for] only
    returns from a [yield] during which [write_done] ran. *)
Theorem one_write_in_flight (fft : list Z → list Z) (adc0 fb0 fm0 : list Z)
    (avg0 : list F32.float) (wb0 : list Z) (rs : list reply) (s : system)
    (tr : list event) :
  exec fft (boot adc0 fb0 fm0 avg0 wb0, kernel0) rs = Some (s, tr) →
  in_flight s.2 = outstanding (at_pc s.1) ∧
  (in_flight s.2 ≤ 1)%nat ∧
  single_flight false tr = true ∧
  forallb completion_observed tr = true.
Proof.
  intros H. apply exec_inv in H as ([Hk _] & Hsf & Hall); [|done].
  repeat split; [done | | done..].
  rewrite Hk. destruct (at_pc s.1); cbn; lia.
Qed.

Lemma one_write_in_flight_witness :
  ∃ s tr,
    exec Scenario.l1_spectrum (Scenario.boot0, kernel0) Scenario.two_cycles =
      Some (s, tr) ∧
    in_flight s.2 = outstanding (at_pc s.1) ∧
    (in_flight s.2 ≤ 1)%nat ∧
    single_flight false tr = true ∧
    forallb completion_observed tr = true.
Proof.
  destruct (exec Scenario.l1_spectrum (Scenario.boot0, kernel0)
              Scenario.two_cycles) as [[s tr]|] eqn:H.
  - exists s, tr. split; [reflexivity|].
    exact (one_write_in_flight Scenario.l1_spectrum _ _ _ _ _ _ _ _ H).
  - vm_compute in H. discriminate.
Defined.

(** ** The record and the first contents of [avg_fft_mag] *)

Section Record.

Variable fft : list Z → list Z.

Lemma yield_for_pc a : at_pc (yield_for a) ≠ AtWrite.
Proof. unfold yield_for. by destruct (wdone a). Qed.





End Record.





(** * Further properties of the spectral logger *)

(** ** Generic facts on left folds and on runs *)

Lemma foldl_ext_in {A B} (f g : A → B → A) (bs : list B) :
  (∀ a b, b ∈ bs → f a b = g a b) → ∀ a, foldl f a bs = foldl g a bs.
Proof.
  induction bs as [|b bs IH]; intros Hfg a; [done|].
  rewrite !foldl_cons, Hfg by (by left).
  apply IH. intros a' b' Hb'. apply Hfg. by right.
Qed.

(** A map [h] on states that commutes with every step of a fold, on the
    states where [P] holds, commutes with the fold. *)
Lemma foldl_commute {A B} (P : A → Prop) (h : A → A) (f : A → B → A)
    (bs : list B) :
  (∀ a b, b ∈ bs → P a → h (f a b) = f (h a) b ∧ P (f a b)) →
  ∀ a, P a → h (foldl f a bs) = foldl f (h a) bs.
Proof.
  induction bs as [|b bs IH]; intros Hc a Ha; [done|].
  destruct (Hc a b) as [Heq Hb]; [by left | done |].
  rewrite !foldl_cons, <-Heq.
  apply IH; [|done]. intros a' b' Hb'. apply Hc. by right.
Qed.

(** ** The analysis window *)

Section Window.

Implicit Types (buf fb : list Z) (k n j : nat).

Lemma window_index k n : (n < 16 → (k * 16 + n) mod 16 = n)%nat.
Proof.
  intros Hn. rewrite Nat.add_comm, Nat.Div0.mod_add. by apply Nat.mod_small.
Qed.

Lemma copy_prefix_length k buf fb n :
  length (foldl (fun fb i => <[(i mod 16)%nat := buf !!! i]> fb) fb
            (seq (k * 16)%nat n)) = length fb.
Proof.
  apply (foldl_invariant (fun x => length x = length fb)); [|done].
  intros a i _ Ha. by rewrite length_insert.
Qed.

(** After the first [n] iterations of the copy loop the first [n] slots
    hold the samples of the window and the others are as before. *)
Lemma copy_prefix_lookup k buf fb n j :
  length fb = 16%nat → (n ≤ 16)%nat →
  foldl (fun fb i => <[(i mod 16)%nat := buf !!! i]> fb) fb
    (seq (k * 16)%nat n) !! j =
  if decide (j < n)%nat then Some (buf !!! (k * 16 + j)%nat) else fb !! j.
Proof.
  intros Hfb. induction n as [|n IH]; intros Hn.
  - case_decide; [lia | done].
  - rewrite seq_S, foldl_app, foldl_cons, foldl_nil.
    rewrite list_lookup_insert, copy_prefix_length, window_index by lia.
    rewrite IH by lia.
    repeat case_decide; try lia; try done.
    by replace j with n by lia.
Qed.

End Window.

(** X1.  The copy loop fills [fft_buf] with the sixteen consecutive samples
    of window k, whatever [fft_buf] held before, as long as the window lies
    inside the sample buffer. *)
Theorem copy_window_is_slice (k : nat) (buf fb : list Z) :
  length fb = 16%nat → (k * 16 + 16 ≤ length buf)%nat →
  copy_window k buf fb = take 16 (drop (k * 16) buf).
Proof.
  intros Hfb Hbuf. apply list_eq. intros j. unfold copy_window.
  rewrite copy_prefix_lookup by done. case_decide as Hj.
  - rewrite lookup_take_lt, lookup_drop by done.
    symmetry. apply list_lookup_lookup_total_lt. lia.
  - rewrite lookup_take_ge by lia. apply lookup_ge_None_2. lia.
Qed.

Lemma copy_window_is_slice_witness :
  length (replicate 16 7) = 16%nat ∧
  (30 * 16 + 16 ≤ length (Z.of_nat <$> seq 0 500))%nat ∧
  copy_window 30 (Z.of_nat <$> seq 0 500) (replicate 16 7) =
    Z.of_nat <$> seq 480 16.
Proof.
  split; [reflexivity|]. split; [vm_compute; lia|].
  rewrite (copy_window_is_slice 30 (Z.of_nat <$> seq 0 500) (replicate 16 7));
    [reflexivity | reflexivity | vm_compute; lia].
Defined.

(** ** What the averaging stage reads *)

Lemma windows_count : (adc_length / 16)%nat = 31%nat.
Proof. reflexivity. Qed.

Lemma copy_window_ext (k : nat) (buf1 buf2 fb : list Z) :
  (∀ i, (k * 16 ≤ i < k * 16 + 16)%nat → buf1 !!! i = buf2 !!! i) →
  copy_window k buf1 fb = copy_window k buf2 fb.
Proof.
  intros Hbuf. unfold copy_window. apply foldl_ext_in.
  intros a i Hi. apply elem_of_seq in Hi. by rewrite Hbuf by lia.
Qed.

Lemma take_lookup_total (n i : nat) (buf1 buf2 : list Z) :
  take n buf1 = take n buf2 → (i < n)%nat → buf1 !!! i = buf2 !!! i.
Proof.
  intros Ht Hi. rewrite !list_lookup_total_alt.
  by rewrite <-(lookup_take_lt buf1 n i), <-(lookup_take_lt buf2 n i), Ht.
Qed.

Section Reads.

Variable fft : list Z → list Z.

Lemma window_set_adc_buffer a buf' k :
  take 496 buf' = take 496 (adc_buffer a) → (k < 31)%nat →
  set_adc_buffer buf' (window fft a k) =
  window fft (set_adc_buffer buf' a) k.
Proof.
  intros Ht Hk. unfold window, set_adc_buffer.
  cbn [at_pc adc_buffer fft_buf fft_mag avg_fft_mag writebuf wdone].
  rewrite (copy_window_ext k buf' (adc_buffer a)); [done|].
  intros i Hi. apply (take_lookup_total 496); [done | lia].
Qed.

Lemma pass_set_adc_buffer a buf' :
  take 496 buf' = take 496 (adc_buffer a) →
  set_adc_buffer buf' (pass fft a) = pass fft (set_adc_buffer buf' a) ∧
  adc_buffer (pass fft a) = adc_buffer a.
Proof.
  intros Ht. unfold pass. rewrite windows_count. split.
  - apply (foldl_commute (fun x => adc_buffer x = adc_buffer a)); [|done].
    intros x k Hk Hx. apply elem_of_seq in Hk. split; [|done].
    apply window_set_adc_buffer; [by rewrite Hx | lia].
  - by apply (foldl_invariant (fun x => adc_buffer x = adc_buffer a)).
Qed.

End Reads.

(** X2.  The averaging stage never reads the samples from index 496 on:
    with a sample buffer that agrees on the first 496 entries the stage
    computes the same state. *)
Theorem analysis_ignores_last_samples (fft : list Z → list Z) (a : app)
    (buf' : list Z) :
  take 496 buf' = take 496 (adc_buffer a) →
  analysis fft (set_adc_buffer buf' a) = set_adc_buffer buf' (analysis fft a).
Proof.
  intros Ht. unfold analysis.
  rewrite passes_of_cycle, !foldl_cons, !foldl_nil.
  destruct (pass_set_adc_buffer fft a buf' Ht) as [<- H1].
  destruct (pass_set_adc_buffer fft (pass fft a) buf') as [<- H2];
    [by rewrite H1|].
  destruct (pass_set_adc_buffer fft (pass fft (pass fft a)) buf') as [<- H3];
    [by rewrite H2, H1|].
  destruct (pass_set_adc_buffer fft (pass fft (pass fft (pass fft a))) buf')
    as [<- _]; [by rewrite H3, H2, H1|].
  reflexivity.
Qed.

Lemma analysis_ignores_last_samples_witness :
  take 496 (replicate 496 0 ++ [9; 9; 9; 9]) =
    take 496 (adc_buffer Scenario.boot0) ∧
  avg_fft_mag (analysis Scenario.l1_spectrum
                 (set_adc_buffer (replicate 496 0 ++ [9; 9; 9; 9])
                    Scenario.boot0)) =
  avg_fft_mag (analysis Scenario.l1_spectrum Scenario.boot0).
Proof.
  assert (take 496 (replicate 496 0 ++ [9; 9; 9; 9]) =
          take 496 (adc_buffer Scenario.boot0)) as Ht by reflexivity.
  split; [exact Ht|].
  rewrite (analysis_ignores_last_samples Scenario.l1_spectrum
             Scenario.boot0 _ Ht).
  apply set_adc_buffer_avg.
Defined.

(** ** Invariants of the steps of [main] *)

Section MainSteps.

Variable fft : list Z → list Z.

Lemma yield_for_writebuf a : writebuf (yield_for a) = writebuf a.
Proof. unfold yield_for. by destruct (wdone a). Qed.

Lemma run_upcall_writebuf u a : writebuf (run_upcall u a) = writebuf a.
Proof. by destruct u. Qed.

(** A step either leaves the averages and the write buffer alone and does
    not arrive at the write, or it is the last sampling call of a cycle,
    followed by the averaging stage and the staging of the record. *)
Lemma resume_cases a r a' out :
  resume fft a r = Some (a', out) →
  (at_pc a' ≠ AtWrite ∧ avg_fft_mag a' = avg_fft_mag a ∧
   writebuf a' = writebuf a) ∨
  (∃ b, avg_fft_mag b = avg_fft_mag a ∧ writebuf b = writebuf a ∧
        a' = set_pc AtWrite (stage (analysis fft b))).
Proof.
  unfold resume. intros H.
  destruct (at_pc a), r; try discriminate.
  - injection H as <- <-. by left.
  - injection H as <- <-. by left.
  - destruct (S i <? 4)%nat; injection H as <- <-.
    + left. split; [done|].
      split; [apply run_upcall_avg | apply run_upcall_writebuf].
    + right. exists (set_adc_buffer samples (run_upcall upcall a)).
      split; [apply run_upcall_avg|]. split; [apply run_upcall_writebuf|done].
  - destruct (ret =? 0); injection H as <- <-; left.
    + split; [apply yield_for_pc|].
      split; [apply yield_for_avg | apply yield_for_writebuf].
    + done.
  - injection H as <- <-. left. split; [apply yield_for_pc|].
    rewrite yield_for_avg, yield_for_writebuf.
    split; [apply run_upcall_avg | apply run_upcall_writebuf].
  - injection H as <- <-. left. split; [done|].
    split; [apply run_upcall_avg | apply run_upcall_writebuf].
Qed.

(** What every step keeps, every run keeps. *)
Lemma run_invariant (P : app → Prop) :
  (∀ a r a' out, P a → resume fft a r = Some (a', out) → P a') →
  ∀ rs a, P a → P (run fft a rs).1.
Proof.
  intros Hstep. induction rs as [|r rs IH]; intros a Ha; cbn [run]; [done|].
  destruct (resume fft a r) as [[a' out]|] eqn:Hr; [|done].
  specialize (IH a' (Hstep _ _ _ _ Ha Hr)).
  by destruct (run fft a' rs) as [a'' out'].
Qed.

(** The averages after the averaging stage: the first three bins as they
    were, the five tracked bins NaN. *)
Lemma analysis_avg_shape a :
  length (avg_fft_mag a) = 8%nat →
  avg_fft_mag (analysis fft a) =
  take 3 (avg_fft_mag a) ++ replicate 5 F32.nan.
Proof.
  intros Hlen. apply list_eq. intros l.
  assert (length (take 3 (avg_fft_mag a)) = 3%nat) as Ht
    by (rewrite length_take; lia).
  destruct (decide (l < 3)%nat) as [Hl|Hl].
  - rewrite analysis_untracked by (by left).
    by rewrite lookup_app_l, lookup_take_lt by lia.
  - rewrite lookup_app_r, Ht by lia.
    destruct (decide (l < 8)%nat) as [Hl8|Hl8].
    + rewrite analysis_tracked_nan by (done || lia).
      by rewrite lookup_replicate_2 by lia.
    + rewrite (lookup_ge_None_2 (replicate _ _))
        by (rewrite length_replicate; lia).
      apply lookup_ge_None_2. rewrite analysis_length. lia.
Qed.

End MainSteps.

(** X3.  After the averaging stage the five tracked bins hold NaN, whatever
    the samples, the transform and the previous averages: every pass starts
    with a division by zero and the second window turns its result into
    NaN.  The first three bins are as before. *)
Theorem averaging_leaves_nan (fft : list Z → list Z) (a : app) :
  length (avg_fft_mag a) = 8%nat →
  avg_fft_mag (analysis fft a) =
  take 3 (avg_fft_mag a) ++ replicate 5 F32.nan.
Proof. apply analysis_avg_shape. Qed.

Lemma averaging_leaves_nan_witness :
  length (avg_fft_mag Scenario.boot0) = 8%nat ∧
  avg_fft_mag (analysis Scenario.l1_spectrum Scenario.boot0) =
    [F32.one; F32.one; F32.one;
     F32.nan; F32.nan; F32.nan; F32.nan; F32.nan].
Proof.
  split; [reflexivity|].
  apply (averaging_leaves_nan Scenario.l1_spectrum Scenario.boot0).
  reflexivity.
Defined.

(** ** What reaches the record *)

Section Persisted.

Variable fft : list Z → list Z.





End Persisted.



(** ** The sampling calls of a cycle *)

Section Sampling.

Variable fft : list Z → list Z.

Lemma window_set_pc p a k :
  set_pc p (window fft a k) = window fft (set_pc p a) k.
Proof. reflexivity. Qed.

Lemma window_set_wdone w a k :
  set_wdone w (window fft a k) = window fft (set_wdone w a) k.
Proof. reflexivity. Qed.

Lemma analysis_set_pc p a :
  set_pc p (analysis fft a) = analysis fft (set_pc p a).
Proof.
  rewrite !analysis_schedule.
  by apply (foldl_commute (fun _ => True)).
Qed.

Lemma analysis_set_wdone w a :
  set_wdone w (analysis fft a) = analysis fft (set_wdone w a).
Proof.
  rewrite !analysis_schedule.
  by apply (foldl_commute (fun _ => True)).
Qed.

Lemma stage_set_wdone w a : stage (set_wdone w a) = stage a.
Proof. reflexivity. Qed.

Lemma stage_set_pc p a : stage (set_pc p a) = set_pc p (stage a).
Proof. reflexivity. Qed.

Lemma set_pc_set_pc p q a : set_pc p (set_pc q a) = set_pc p a.
Proof. reflexivity. Qed.

(** Staging and the jump to the write forget the flag and the program
    point the averaging stage was entered with. *)
Lemma arrival_forgets p w a :
  set_pc AtWrite (stage (analysis fft (set_wdone w (set_pc p a)))) =
  set_pc AtWrite (stage (analysis fft a)).
Proof.
  rewrite <-analysis_set_wdone, <-analysis_set_pc.
  by rewrite stage_set_wdone, stage_set_pc, set_pc_set_pc.
Qed.

(** The four sampling calls of a cycle leave main at the write with the
    analysis of the last buffer. *)
Lemma sampling_cycle a x0 x1 x2 x3 :
  at_pc a = AtSample 0 →
  (run fft a (sampled <$> [x0; x1; x2; x3])).1 =
  set_pc AtWrite (stage (analysis fft (set_adc_buffer x3.1.2 a))).
Proof.
  destruct a as [p adc fb fm avg wb wd]. cbn [at_pc]. intros ->.
  destruct x0 as [[e0 s0] u0], x1 as [[e1 s1] u1], x2 as [[e2 s2] u2],
    x3 as [[e3 s3] u3].
  rewrite <-(arrival_forgets (AtSample 3)
               (wd || u0 || u1 || u2 || u3)
               (set_adc_buffer _ _)).
  by destruct wd, u0, u1, u2, u3.
Qed.

End Sampling.

(** X5.  Of the four acquisitions of a cycle only the last one is used:
    the state in which main arrives at the write is the same whatever the
    first three calls returned, and whatever the error codes and upcall
    flags of all four; it is the analysis of the last buffer. *)
Theorem cycle_uses_last_acquisition_only (fft : list Z → list Z) (a : app)
    (x0 x1 x2 x3 y0 y1 y2 y3 : Z * list Z * bool) :
  at_pc a = AtSample 0 → x3.1.2 = y3.1.2 →
  (run fft a (sampled <$> [x0; x1; x2; x3])).1 =
    (run fft a (sampled <$> [y0; y1; y2; y3])).1 ∧
  (run fft a (sampled <$> [x0; x1; x2; x3])).1 =
    set_pc AtWrite (stage (analysis fft (set_adc_buffer x3.1.2 a))).
Proof.
  intros Hpc Hx. rewrite !sampling_cycle by done. by rewrite Hx.
Qed.

Lemma cycle_uses_last_acquisition_only_witness :
  at_pc (set_pc (AtSample 0) Scenario.boot0) = AtSample 0 ∧
  (run Scenario.l1_spectrum (set_pc (AtSample 0) Scenario.boot0)
     (sampled <$> [(0, replicate 500 1, false); (0, replicate 500 2, false);
                   (0, replicate 500 3, false); (0, replicate 500 4, false)])).1
  = (run Scenario.l1_spectrum (set_pc (AtSample 0) Scenario.boot0)
     (sampled <$> [(-1, [], true); (-2, [], false);
                   (-3, [], true); (-4, replicate 500 4, true)])).1.
Proof.
  split; [reflexivity|].
  exact (proj1 (cycle_uses_last_acquisition_only Scenario.l1_spectrum
                  (set_pc (AtSample 0) Scenario.boot0)
                  (0, replicate 500 1, false) (0, replicate 500 2, false)
                  (0, replicate 500 3, false) (0, replicate 500 4, false)
                  (-1, [], true) (-2, [], false) (-3, [], true)
                  (-4, replicate 500 4, true) eq_refl eq_refl)).
Defined.

(** ** How [main] ends and how it waits *)

Section Ending.

Variable fft : list Z → list Z.

Lemma resume_return_code a r a' out ret :
  resume fft a r = Some (a', out) → at_pc a' = Returned ret → ret ≠ 0.
Proof.
  unfold resume. intros H.
  destruct (at_pc a), r; try discriminate.
  - by injection H as <- <-.
  - by injection H as <- <-.
  - by destruct (S i <? 4)%nat; injection H as <- <-.
  - destruct (ret0 =? 0) eqn:Hret; injection H as <- <-.
    + unfold yield_for. by destruct (wdone a).
    + intros [= <-]. by apply Z.eqb_neq.
  - injection H as <- <-. unfold yield_for.
    by destruct (wdone (run_upcall upcall a)).
  - by injection H as <- <-.
Qed.

Lemma stage_wdone a : wdone (stage a) = false.
Proof. reflexivity. Qed.

Lemma resume_arrival_wdone a r a' out :
  resume fft a r = Some (a', out) → at_pc a' = AtWrite → wdone a' = false.
Proof.
  intros Hr Hpc.
  by destruct (resume_cases fft _ _ _ _ Hr) as [(? & _) | (b & _ & _ & ->)].
Qed.

End Ending.

(** X6.  [main] never returns 0: when it has returned, the code is the
    nonzero return value of a refused write request, and no further reply
    moves it. *)
Theorem main_returns_only_on_write_failure (fft : list Z → list Z)
    (adc0 fb0 fm0 : list Z) (avg0 : list F32.float) (wb0 : list Z)
    (rs rs' : list reply) (ret : Z) :
  at_pc (run fft (boot adc0 fb0 fm0 avg0 wb0) rs).1 = Returned ret →
  ret ≠ 0 ∧
  run fft (run fft (boot adc0 fb0 fm0 avg0 wb0) rs).1 rs' =
    ((run fft (boot adc0 fb0 fm0 avg0 wb0) rs).1, []).
Proof.
  intros Hpc. split.
  - revert Hpc.
    apply (run_invariant fft
             (fun a => at_pc a = Returned ret → ret ≠ 0)); [|done].
    intros a r a' out _ Hr. by apply (resume_return_code fft a r a' out).
  - destruct rs' as [|r rs']; [done|].
    cbn [run]. unfold resume. by rewrite Hpc.
Qed.

Lemma main_returns_only_on_write_failure_witness :
  at_pc (run Scenario.l1_spectrum Scenario.boot0
           (Scenario.first_cycle ++ [RetInt (-7)])).1 = Returned (-7) ∧
  -7 ≠ 0.
Proof.
  assert (at_pc (run Scenario.l1_spectrum Scenario.boot0
                   (Scenario.first_cycle ++ [RetInt (-7)])).1 =
          Returned (-7)) as H by (vm_compute; reflexivity).
  split; [exact H|].
  exact (proj1 (main_returns_only_on_write_failure Scenario.l1_spectrum
                  _ _ _ _ _ _ [] _ H)).
Defined.

(** X7.  Whenever main arrives at the write request [wdone] is false, so
    a completion signalled earlier cannot satisfy the wait: after a write
    the kernel accepted, main always enters [yield] before it goes on. *)
Theorem accepted_write_is_always_awaited (fft : list Z → list Z)
    (adc0 fb0 fm0 : list Z) (avg0 : list F32.float) (wb0 : list Z)
    (rs : list reply) :
  at_pc (run fft (boot adc0 fb0 fm0 avg0 wb0) rs).1 = AtWrite →
  wdone (run fft (boot adc0 fb0 fm0 avg0 wb0) rs).1 = false ∧
  resume fft (run fft (boot adc0 fb0 fm0 avg0 wb0) rs).1 (RetInt 0) =
    Some (set_pc AtYield (run fft (boot adc0 fb0 fm0 avg0 wb0) rs).1, []).
Proof.
  intros Hpc.
  assert (wdone (run fft (boot adc0 fb0 fm0 avg0 wb0) rs).1 = false) as Hw.
  { revert Hpc.
    apply (run_invariant fft (fun a => at_pc a = AtWrite → wdone a = false));
      [|done].
    intros a r a' out _ Hr. by apply (resume_arrival_wdone fft a r a' out). }
  split; [done|]. unfold resume, yield_for. by rewrite Hpc, Hw.
Qed.

Lemma accepted_write_is_always_awaited_witness :
  at_pc (run Scenario.l1_spectrum Scenario.boot0
           ([RetInt 0; RetInt 0] ++
            [Sampled 0 [] true; Sampled 0 [] true; Sampled 0 [] true;
             Sampled 0 [] true])).1 = AtWrite ∧
  wdone (run Scenario.l1_spectrum Scenario.boot0
           ([RetInt 0; RetInt 0] ++
            [Sampled 0 [] true; Sampled 0 [] true; Sampled 0 [] true;
             Sampled 0 [] true])).1 = false.
Proof.
  assert (at_pc (run Scenario.l1_spectrum Scenario.boot0
           ([RetInt 0; RetInt 0] ++
            [Sampled 0 [] true; Sampled 0 [] true; Sampled 0 [] true;
             Sampled 0 [] true])).1 = AtWrite) as H
    by (vm_compute; reflexivity).
  split; [exact H|].
  exact (proj1 (accepted_write_is_always_awaited Scenario.l1_spectrum
                  _ _ _ _ _ _ H)).
Defined.

(** ** A failed subscription *)

Section Unsubscribed.

Variable fft : list Z → list Z.

Lemma deliver_unsubscribed k k' u :
  subscribed k = false → deliver u k = Some k' → u = false ∧ k' = k.
Proof.
  intros Hk. destruct u; unfold deliver; [by rewrite Hk|].
  by intros [= <-].
Qed.

Lemma step_unsubscribed s r s' e :
  unsubscribed s → step fft s r = Some (s', e) →
  unsubscribed s' ∧ unobserved e = true.
Proof.
  destruct s as [a k]. intros (Hk & Hw & Hpc). cbn [fst snd] in *.
  unfold step, next. cbn [fst snd].
  destruct (at_pc a) eqn:Ha; try done;
    destruct r as [rv|err samples u|u|u]; cbn [serve]; try done;
    unfold resume; rewrite Ha.
  - destruct (length samples =? adc_length)%nat; [|done].
    destruct (deliver u k) as [k'|] eqn:Hd; [|done].
    apply deliver_unsubscribed in Hd as [-> ->]; [|done].
    by destruct (S i <? 4)%nat; intros [= <- <-]; unfold unsubscribed;
      cbn -[analysis].
  - unfold yield_for. rewrite Hw.
    by destruct (rv =? 0); intros [= <- <-]; unfold unsubscribed.
  - destruct (deliver u k) as [k'|] eqn:Hd; [|done].
    apply deliver_unsubscribed in Hd as [-> ->]; [|done].
    unfold yield_for. cbn [run_upcall]. rewrite Hw.
    by intros [= <- <-]; unfold unsubscribed.
Qed.

Lemma exec_unsubscribed rs : ∀ s s' tr,
  unsubscribed s → exec fft s rs = Some (s', tr) →
  unsubscribed s' ∧ forallb unobserved tr = true.
Proof.
  induction rs as [|r rs IH]; intros s s' tr Hs; cbn [exec].
  - by intros [= <- <-].
  - destruct (step fft s r) as [[s1 e]|] eqn:Hstep; [|done].
    destruct (exec fft s1 rs) as [[s2 tr2]|] eqn:Hexec; [|done].
    intros [= <- <-].
    destruct (step_unsubscribed _ _ _ _ Hs Hstep) as [Hs1 He].
    destruct (IH _ _ _ Hs1 Hexec) as [Hs2 Htr].
    split; [done|]. cbn [forallb]. by rewrite He, Htr.
Qed.

End Unsubscribed.

(** X8.  A failed subscription of the completion callback is only logged.
    Against a kernel that runs no callback that was not registered, main
    then never gets past [yield_for]: in every execution [wdone] stays
    false and no event is a return of [yield_for]. *)
Theorem failed_subscription_blocks_main (fft : list Z → list Z)
    (adc0 fb0 fm0 : list Z) (avg0 : list F32.float) (wb0 : list Z)
    (r1 r2 : Z) (rs : list reply) (s : system) (tr : list event) :
  r2 ≠ 0 →
  exec fft (boot adc0 fb0 fm0 avg0 wb0, kernel0)
    (RetInt r1 :: RetInt r2 :: rs) = Some (s, tr) →
  wdone s.1 = false ∧ at_pc s.1 ≠ AtDelay ∧
  forallb unobserved tr = true ∧
  ev_out <$> tr !! 1%nat =
    Some [Printf "ERROR setting write done callback\n" []].
Proof.
  intros Hr2. apply Z.eqb_neq in Hr2.
  cbn [exec]. unfold step at 1. cbn -[exec step].
  unfold step at 1. cbn -[exec]. rewrite Hr2.
  destruct (exec _ _ rs) as [[s2 tr2]|] eqn:Hexec; [|done].
  intros [= <- <-].
  apply exec_unsubscribed in Hexec as [(Hk & Hw & Hpc) Htr].
  - repeat split; try done. intros Heq. by rewrite Heq in Hpc.
  - unfold unsubscribed. cbn. by destruct (r1 =? 0).
Qed.

Lemma failed_subscription_blocks_main_witness :
  ∃ s tr,
    -1 ≠ 0 ∧
    exec Scenario.l1_spectrum (Scenario.boot0, kernel0)
      (RetInt 0 :: RetInt (-1) ::
       Scenario.sampling 5 ++ [RetInt 0; Yielded false; Yielded false]) =
      Some (s, tr) ∧
    at_pc s.1 = AtYield ∧ forallb unobserved tr = true.
Proof.
  destruct (exec Scenario.l1_spectrum (Scenario.boot0, kernel0)
              (RetInt 0 :: RetInt (-1) ::
               Scenario.sampling 5 ++ [RetInt 0; Yielded false; Yielded false]))
    as [[s tr]|] eqn:H.
  - exists s, tr. split; [lia|]. split; [reflexivity|].
    split; [by vm_compute in H; injection H as <- _|].
    assert (-1 ≠ 0) as Hne by lia.
    exact (proj1 (proj2 (proj2
      (failed_subscription_blocks_main Scenario.l1_spectrum
         _ _ _ _ _ _ _ _ _ _ Hne H)))).
  - vm_compute in H. discriminate.
Defined.

(** * The SPI loopback test *)

(** ** Loops over an index range *)

Lemma find_seq_first (f : nat → bool) (n : nat) : ∀ start i,
  find f (seq start n) = Some i ↔
  (start ≤ i < start + n)%nat ∧ f i = true ∧
  ∀ j, (start ≤ j < i)%nat → f j = false.
Proof.
  induction n as [|n IH]; intros start i; cbn [seq find].
  - split; [done | lia].
  - destruct (f start) eqn:Hs.
    + split.
      * intros [= <-]. split; [lia|]. split; [done | lia].
      * intros (Hi & Hfi & Hlt). f_equal.
        destruct (decide (start = i)) as [|Hne]; [done|].
        rewrite Hlt in Hs by lia. discriminate.
    + rewrite IH. split.
      * intros (Hi & Hfi & Hlt). split; [lia|]. split; [done|].
        intros j Hj. destruct (decide (j = start)) as [->|]; [done|].
        apply Hlt. lia.
      * intros (Hi & Hfi & Hlt).
        assert (start ≠ i) by (intros ->; congruence).
        split; [lia|]. split; [done|]. intros j Hj. apply Hlt. lia.
Qed.

Lemma find_seq_none (f : nat → bool) (n : nat) : ∀ start,
  find f (seq start n) = None ↔
  ∀ j, (start ≤ j < start + n)%nat → f j = false.
Proof.
  induction n as [|n IH]; intros start; cbn [seq find].
  - split; [lia | done].
  - destruct (f start) eqn:Hs.
    + split; [done|]. intros H. rewrite H in Hs by lia. discriminate.
    + rewrite IH. split; intros H j Hj.
      * destruct (decide (j = start)) as [->|]; [done|]. apply H. lia.
      * apply H. lia.
Qed.

(** A loop that rewrites slot [i] from its own content, for [i] from 0 up
    to [n]. *)
Lemma fold_update_length (h : nat → Z → Z) (w : list Z) (n : nat) :
  length (foldl (fun w i => <[i := h i (w !!! i)]> w) w (seq 0 n)) =
  length w.
Proof.
  apply (foldl_invariant (fun x => length x = length w)); [|done].
  intros a i _ Ha. by rewrite length_insert.
Qed.

Lemma fold_update_lookup (h : nat → Z → Z) (w : list Z) (n j : nat) :
  (n ≤ length w)%nat →
  foldl (fun w i => <[i := h i (w !!! i)]> w) w (seq 0 n) !! j =
  if decide (j < n)%nat then h j <$> w !! j else w !! j.
Proof.
  revert j. induction n as [|n IH]; intros j Hn.
  - case_decide; [lia | done].
  - rewrite seq_S, foldl_app, foldl_cons, foldl_nil. cbn [Nat.add].
    rewrite list_lookup_insert, fold_update_length.
    rewrite (list_lookup_total_alt _ n), !IH by lia.
    destruct (lookup_lt_is_Some_2 w n) as [x Hx]; [lia|].
    repeat case_decide; try lia; try done.
    destruct_and?; subst. by rewrite Hx.
Qed.

Lemma fold_update_all (f : Z → Z) (w : list Z) :
  foldl (fun w i => <[i := f (w !!! i)]> w) w (seq 0 (length w)) = f <$> w.
Proof.
  apply list_eq. intros j.
  rewrite (fold_update_lookup (fun _ => f)), list_lookup_fmap by done.
  case_decide as Hj; [done|].
  by rewrite (lookup_ge_None_2 w j) by lia.
Qed.

(** ** The callback *)

Lemma first_mismatch_spec (rbuf wbuf : list Z) (i : nat) :
  Spi.first_mismatch rbuf wbuf = Some i ↔
  (i < Spi.BUF_SIZE)%nat ∧ rbuf !!! i ≠ wbuf !!! i ∧
  ∀ j, (j < i)%nat → rbuf !!! j = wbuf !!! j.
Proof.
  unfold Spi.first_mismatch. rewrite find_seq_first.
  rewrite negb_true_iff, Z.eqb_neq. split.
  - intros (Hi & Hne & Hlt). split; [lia|]. split; [done|].
    intros j Hj. apply Z.eqb_eq, negb_false_iff, Hlt. lia.
  - intros (Hi & Hne & Hlt). split; [lia|]. split; [done|].
    intros j Hj. apply negb_false_iff, Z.eqb_eq, Hlt. lia.
Qed.

Lemma first_mismatch_none (rbuf wbuf : list Z) :
  Spi.first_mismatch rbuf wbuf = None ↔
  ∀ j, (j < Spi.BUF_SIZE)%nat → rbuf !!! j = wbuf !!! j.
Proof.
  unfold Spi.first_mismatch. rewrite find_seq_none. split.
  - intros H j Hj. apply Z.eqb_eq, negb_false_iff, H. lia.
  - intros H j Hj. apply negb_false_iff, Z.eqb_eq, H. lia.
Qed.

Lemma increment_all (wbuf : list Z) :
  length wbuf = Spi.BUF_SIZE →
  Spi.increment wbuf = (fun c => Spi.to_char (c + 1)) <$> wbuf.
Proof.
  intros Hlen. unfold Spi.increment. rewrite <-Hlen.
  apply (fold_update_all (fun c => Spi.to_char (c + 1))).
Qed.

(** X9.  The callback takes its failure branch exactly when the received
    bytes differ from the bytes sent somewhere in the first 200, and the
    index it prints is the first one where they differ. *)
Theorem write_cb_reports_first_mismatch (rbuf wbuf : list Z) (i : nat) :
  Spi.write_cb rbuf wbuf = Spi.Failed i ↔
  (i < Spi.BUF_SIZE)%nat ∧ rbuf !!! i ≠ wbuf !!! i ∧
  ∀ j, (j < i)%nat → rbuf !!! j = wbuf !!! j.
Proof.
  rewrite <-first_mismatch_spec. unfold Spi.write_cb.
  destruct (Spi.first_mismatch rbuf wbuf); split; congruence.
Qed.

(** X10.  When the first 200 received bytes equal the bytes sent, and only
    then, the callback goes on to the next transfer, with every byte of
    [wbuf] incremented modulo 256. *)
Theorem write_cb_continues_on_match (rbuf wbuf : list Z) :
  length wbuf = Spi.BUF_SIZE →
  (∀ j, (j < Spi.BUF_SIZE)%nat → rbuf !!! j = wbuf !!! j) ↔
  Spi.write_cb rbuf wbuf =
    Spi.Continue ((fun c => (c + 1) mod 256) <$> wbuf).
Proof.
  intros Hlen. rewrite <-first_mismatch_none. unfold Spi.write_cb.
  destruct (Spi.first_mismatch rbuf wbuf); split; try done.
  intros _. by rewrite increment_all.
Qed.

Lemma write_cb_continues_on_match_witness :
  length (replicate 200 255) = Spi.BUF_SIZE ∧
  Spi.write_cb (replicate 200 255 ++ [1]) (replicate 200 255) =
    Spi.Continue (replicate 200 0).
Proof.
  split; [reflexivity|].
  apply (write_cb_continues_on_match (replicate 200 255 ++ [1])
           (replicate 200 255)); [reflexivity|].
  intros j Hj. rewrite !list_lookup_total_alt, lookup_app_l; [done|].
  by rewrite length_replicate.
Defined.

(** ** The test in loopback *)

(** The contents of [wbuf] after [n] completed transfers. *)
Lemma main_wbuf :
  Spi.wbuf Spi.main = (fun i => Spi.to_char (Z.of_nat i)) <$> seq 0 200.
Proof.
  apply list_eq. intros j. unfold Spi.main. cbn [Spi.wbuf].
  rewrite (fold_update_lookup (fun i _ => Spi.to_char (Z.of_nat i)))
    by (by rewrite length_replicate).
  rewrite list_lookup_fmap. unfold Spi.BUF_SIZE. case_decide as Hj.
  - by rewrite lookup_replicate_2, lookup_seq_lt by done.
  - rewrite lookup_seq_ge by lia.
    apply lookup_ge_None_2. rewrite length_replicate. lia.
Qed.

Lemma write_cb_loopback (w : list Z) :
  length w = Spi.BUF_SIZE →
  Spi.write_cb w w = Spi.Continue ((fun c => Spi.to_char (c + 1)) <$> w).
Proof.
  intros Hlen. unfold Spi.write_cb.
  destruct (Spi.first_mismatch w w) as [i|] eqn:Hm.
  - apply first_mismatch_spec in Hm as (_ & Hne & _). done.
  - by rewrite increment_all.
Qed.

Lemma loopback_state (n : nat) :
  Spi.wbuf (Spi.loopback n Spi.main) =
    (fun i => Spi.to_char (Z.of_nat i + Z.of_nat n)) <$> seq 0 200 ∧
  Spi.spinning (Spi.loopback n Spi.main) = false ∧
  Spi.led0 (Spi.loopback n Spi.main) = false ∧
  Spi.printed (Spi.loopback n Spi.main) = [] ∧
  Spi.transfers (Spi.loopback n Spi.main) = S n.
Proof.
  induction n as [|n (Hw & Hs & Hl & Hp & Ht)].
  - change (Spi.loopback 0 Spi.main) with Spi.main.
    split; [|done]. rewrite main_wbuf. apply list_fmap_ext.
    intros i x _. by rewrite Z.add_0_r.
  - unfold Spi.loopback in *. rewrite Nat.iter_succ.
    set (s := Nat.iter n _ Spi.main) in *.
    unfold Spi.transfer_done. rewrite Hs, write_cb_loopback.
    + cbn [Spi.wbuf Spi.spinning Spi.led0 Spi.printed Spi.transfers].
      rewrite Hw, Hl, Hp, Ht. split; [|done].
      rewrite <-list_fmap_compose. apply list_fmap_ext.
      intros i x _. unfold Spi.to_char. cbn [compose].
      rewrite Zplus_mod_idemp_l. f_equal. lia.
    + by rewrite Hw, length_fmap, length_seq.
Qed.

(** X11.  With the bus in loopback the test never fails: after any number
    of transfers it is not spinning, the LED is off, nothing was printed,
    byte i of [wbuf] is (i + n) mod 256 after n completed transfers, and
    the contents repeat every 256 transfers. *)
Theorem loopback_never_fails (n : nat) :
  Spi.spinning (Spi.loopback n Spi.main) = false ∧
  Spi.led0 (Spi.loopback n Spi.main) = false ∧
  Spi.printed (Spi.loopback n Spi.main) = [] ∧
  Spi.transfers (Spi.loopback n Spi.main) = S n ∧
  Spi.wbuf (Spi.loopback n Spi.main) =
    (fun i => (Z.of_nat i + Z.of_nat n) mod 256) <$> seq 0 200 ∧
  Spi.wbuf (Spi.loopback (n + 256) Spi.main) =
    Spi.wbuf (Spi.loopback n Spi.main).
Proof.
  destruct (loopback_state n) as (Hw & Hs & Hl & Hp & Ht).
  destruct (loopback_state (n + 256)) as (Hw' & _).
  repeat split; try done.
  rewrite Hw, Hw'. apply list_fmap_ext. intros i x _. unfold Spi.to_char.
  rewrite Nat2Z.inj_add, Z.add_assoc.
  apply (Z_mod_plus_full _ 1 256).
Qed.



(** * The flash read/write test *)

Section FlashTest.

Variable past_end : Z → nat → Z.

(** Projections of explicit states, without unfolding the loops. *)
Ltac fsimpl :=
  unfold Flash.after_write, Flash.after_read, Flash.set_pc,
    Flash.run_upcall;
  cbn [Flash.at_pc Flash.num_runs Flash.readbuf Flash.writebuf Flash.rdone
       Flash.wdone fst snd].

Lemma fill_constant (n : Z) (wb : list Z) :
  length wb = Flash.len → 0 ≤ n < 5 →
  Flash.fill n wb = replicate Flash.len (4 + n).
Proof.
  intros Hlen Hn. apply list_eq. intros j. unfold Flash.fill.
  rewrite (fold_update_lookup (fun _ _ => (4 + n) mod 256)) by lia.
  rewrite Z.mod_small by lia. case_decide as Hj.
  - destruct (lookup_lt_is_Some_2 wb j) as [x ->]; [lia|].
    by rewrite lookup_replicate_2.
  - rewrite (lookup_ge_None_2 (replicate _ _))
      by (rewrite length_replicate; lia).
    apply lookup_ge_None_2. lia.
Qed.

Lemma fill_length (n : Z) (wb : list Z) :
  length (Flash.fill n wb) = length wb.
Proof. apply (fold_update_length (fun _ _ => (4 + n) mod 256)). Qed.

Lemma count_cons (p : Flash.syscall → bool) c cs :
  Flash.count p (c :: cs) = (if p c then 1 else 0) + Flash.count p cs.
Proof.
  unfold Flash.count. rewrite filter_cons.
  destruct (p c); case_decide; try done. cbn [length]. lia.
Qed.

Lemma loop_head_inv a w r :
  length (Flash.writebuf a) = Flash.len →
  0 ≤ Flash.num_runs a ≤ 5 → w = Flash.num_runs a → r = Flash.num_runs a →
  Flash.flash_inv (Flash.loop_head a).1 w r.
Proof.
  intros Hlen Hn -> ->. unfold Flash.loop_head.
  destruct (Flash.num_runs a <? 5) eqn:Hlt.
  - apply Z.ltb_lt in Hlt. unfold Flash.flash_inv. fsimpl.
    rewrite fill_length. repeat split; try done; try lia.
    by apply fill_constant; [|lia].
  - apply Z.ltb_ge in Hlt. unfold Flash.flash_inv. fsimpl.
    repeat split; try done; lia.
Qed.

Lemma step_flash_inv a w r c rp a' out :
  Flash.flash_inv a w r → Flash.next a = Some c →
  Flash.resume past_end a rp = Some (a', out) →
  Flash.flash_inv a'
    (w + (if Flash.is_write c then 1 else 0))
    (r + (if Flash.is_read c then 1 else 0)).
Proof.
  intros [Hlen Hinv]. unfold Flash.next, Flash.resume.
  destruct (Flash.at_pc a) eqn:Hpc; intros [= <-];
    cbn [Flash.is_write Flash.is_read]; rewrite ?Z.add_0_r;
    destruct rp as [ret|u]; try done.
  1-3: by intros [= <- <-].
  - destruct Hinv as (Hn & -> & ->).
    destruct (Flash.loop_head a) as [a1 o1] eqn:Hl. intros [= <- <-].
    change a1 with (a1, o1).1. rewrite <-Hl.
    apply loop_head_inv; (done || lia).
  - destruct Hinv as (Hn & -> & -> & Hwb & Hw).
    rewrite Hw.
    destruct (ret =? 0) eqn:Hret; intros [= <- <-]; unfold Flash.flash_inv;
      fsimpl; repeat split; try done; try lia.
  - destruct Hinv as (Hn & -> & ->).
    intros [= <- <-].
    destruct u as [| |data]; fsimpl;
      try destruct (Flash.wdone a); unfold Flash.flash_inv; fsimpl;
      repeat split; try done; lia.
  - destruct Hinv as (Hn & -> & -> & Hr).
    rewrite Hr.
    destruct (ret =? 0) eqn:Hret; intros [= <- <-]; unfold Flash.flash_inv;
      fsimpl; repeat split; try done; try lia.
  - destruct Hinv as (Hn & -> & ->).
    destruct u as [| |data]; fsimpl;
      try destruct (Flash.rdone a); intros [= <- <-];
      unfold Flash.flash_inv; fsimpl;
      repeat split; try done; lia.
  - destruct Hinv as (Hn & -> & ->).
    intros [= Hl].
    assert (a' = (Flash.loop_head (Flash.run_upcall u a)).1) as ->
      by (by rewrite Hl).
    apply loop_head_inv; destruct u; fsimpl; (done || lia).
Qed.

Lemma run_flash_inv rs : ∀ a w r,
  Flash.flash_inv a w r →
  Flash.flash_inv (Flash.run past_end a rs).1.1
    (w + Flash.count Flash.is_write (Flash.run past_end a rs).2)
    (r + Flash.count Flash.is_read (Flash.run past_end a rs).2).
Proof.
  induction rs as [|rp rs IH]; intros a w r Ha; cbn [Flash.run].
  - cbn. by rewrite !Z.add_0_r.
  - destruct (Flash.next a) as [c|] eqn:Hc;
      [|cbn; by rewrite !Z.add_0_r].
    destruct (Flash.resume past_end a rp) as [[a' out]|] eqn:Hr;
      [|cbn; by rewrite !Z.add_0_r].
    specialize (IH a' _ _ (step_flash_inv _ _ _ _ _ _ _ Ha Hc Hr)).
    destruct (Flash.run past_end a' rs) as [[a'' out'] cs].
    cbn [fst snd] in *. rewrite !count_cons, !Z.add_assoc. exact IH.
Qed.

Lemma boot_flash_inv rb wb :
  length wb = Flash.len → Flash.flash_inv (Flash.boot rb wb) 0 0.
Proof. by intros Hlen. Qed.

Lemma loop_head_forget a :
  Flash.loop_head (Flash.forget a) =
  (Flash.forget (Flash.loop_head a).1, (Flash.loop_head a).2).
Proof.
  unfold Flash.loop_head, Flash.forget. fsimpl.
  by destruct (Flash.num_runs a <? 5).
Qed.

(** The control of [main] and what it prints do not look at [readbuf]. *)
Lemma resume_forget a r :
  Flash.resume past_end (Flash.forget a) (Flash.blank r) =
  (fun x => (Flash.forget x.1, x.2)) <$> Flash.resume past_end a r.
Proof.
  unfold Flash.resume.
  change (Flash.at_pc (Flash.forget a)) with (Flash.at_pc a).
  destruct (Flash.at_pc a), r as [rv|[| |data]]; try done;
    cbn [Flash.blank].
  all: try change (Flash.run_upcall Flash.NoUpcall (Flash.forget a))
         with (Flash.forget (Flash.run_upcall Flash.NoUpcall a)).
  all: try change (Flash.run_upcall Flash.WriteDone (Flash.forget a))
         with (Flash.forget (Flash.run_upcall Flash.WriteDone a)).
  all: try change (Flash.run_upcall (Flash.ReadDone []) (Flash.forget a))
         with (Flash.forget (Flash.run_upcall (Flash.ReadDone data) a)).
  all: try generalize (Flash.run_upcall Flash.NoUpcall a).
  all: try generalize (Flash.run_upcall Flash.WriteDone a).
  all: try generalize (Flash.run_upcall (Flash.ReadDone data) a).
  all: intros; rewrite ?loop_head_forget.
  all: try match goal with
         | |- context [Flash.loop_head ?b] =>
             destruct (Flash.loop_head b) as [? ?]
         end.
  all: unfold Flash.forget; fsimpl.
  all: repeat match goal with
         | |- context [if ?b then _ else _] => destruct b
         end.
  all: reflexivity.
Qed.

Lemma run_forget rs : ∀ a,
  Flash.run past_end (Flash.forget a) (Flash.blank <$> rs) =
  (Flash.forget (Flash.run past_end a rs).1.1,
   (Flash.run past_end a rs).1.2, (Flash.run past_end a rs).2).
Proof.
  induction rs as [|r rs IH]; intros a; [done|].
  rewrite fmap_cons. cbn [Flash.run].
  change (Flash.next (Flash.forget a)) with (Flash.next a).
  rewrite resume_forget.
  destruct (Flash.next a) as [c|]; [|done].
  destruct (Flash.resume past_end a r) as [[a' out]|]; [|done].
  cbn [option_fmap option_map fmap fst snd]. rewrite IH.
  by destruct (Flash.run past_end a' rs) as [[a'' out'] cs].
Qed.

End FlashTest.

(** X13.  The storage test makes at most five write requests and never
    more read than write requests; [num_runs] stays between 0 and 5; and
    when [main] has returned 0 it has made exactly five requests of each
    kind. *)
Theorem flash_test_makes_five_rounds (past_end : Z → nat → Z)
    (rb wb : list Z) (replies : list Flash.reply) :
  length wb = Flash.len →
  let res := Flash.run past_end (Flash.boot rb wb) replies in
  0 ≤ Flash.count Flash.is_read res.2 ≤ Flash.count Flash.is_write res.2 ∧
  Flash.count Flash.is_write res.2 ≤ 5 ∧
  0 ≤ Flash.num_runs res.1.1 ≤ 5 ∧
  (Flash.at_pc res.1.1 = Flash.Returned 0 →
   Flash.count Flash.is_write res.2 = 5 ∧
   Flash.count Flash.is_read res.2 = 5).
Proof.
  intros Hlen res.
  pose proof (run_flash_inv past_end replies _ _ _
                (boot_flash_inv rb wb Hlen)) as [_ Hinv].
  fold res in Hinv. rewrite !Z.add_0_l in Hinv.
  destruct (Flash.at_pc res.1.1) as [| | | | | | | | |ret];
    (split; [lia|]; split; [lia|]; split; [lia|]); intros [= Hret].
  destruct Hinv as (_ & _ & _ & Hfive). by destruct (Hfive Hret).
Qed.

Lemma flash_test_makes_five_rounds_witness :
  length (replicate 500 0) = Flash.len ∧
  Flash.at_pc (Flash.run (fun _ _ => 0) (Flash.boot [] (replicate 500 0))
                 (Flash.fault_free (replicate 500 8))).1.1 = Flash.Returned 0 ∧
  Flash.count Flash.is_write
    (Flash.run (fun _ _ => 0) (Flash.boot [] (replicate 500 0))
       (Flash.fault_free (replicate 500 8))).2 = 5.
Proof.
  assert (Flash.at_pc
            (Flash.run (fun _ _ => 0) (Flash.boot [] (replicate 500 0))
               (Flash.fault_free (replicate 500 8))).1.1 = Flash.Returned 0)
    as Hpc by (vm_compute; reflexivity).
  split; [reflexivity|]. split; [exact Hpc|].
  exact (proj1 (proj2 (proj2 (proj2
    (flash_test_makes_five_rounds (fun _ _ => 0) [] (replicate 500 0)
       (Flash.fault_free (replicate 500 8)) eq_refl))) Hpc)).
Defined.

(** X14.  Whenever the storage test is about to write, the request is for
    500 bytes at offset 0, the length of the buffer it shared, and the
    buffer holds 500 bytes of value 4 + k, where k is the number of writes
    requested before; [wdone] is false. *)
Theorem flash_test_writes_constant_block (past_end : Z → nat → Z)
    (rb wb : list Z) (replies : list Flash.reply) :
  length wb = Flash.len →
  let res := Flash.run past_end (Flash.boot rb wb) replies in
  Flash.at_pc res.1.1 = Flash.AtWrite →
  Flash.next res.1.1 = Some (Flash.write 0 500) ∧
  Flash.writebuf res.1.1 =
    replicate 500 (4 + Flash.count Flash.is_write res.2) ∧
  Flash.wdone res.1.1 = false.
Proof.
  intros Hlen res Hpc.
  pose proof (run_flash_inv past_end replies _ _ _
                (boot_flash_inv rb wb Hlen)) as [_ Hinv].
  fold res in Hinv. rewrite !Z.add_0_l, Hpc in Hinv.
  destruct Hinv as (_ & -> & _ & Hwb & Hw).
  unfold Flash.next. by rewrite Hpc.
Qed.

Lemma flash_test_writes_constant_block_witness :
  length (replicate 500 0) = Flash.len ∧
  Flash.at_pc (Flash.run (fun _ _ => 0) (Flash.boot [] (replicate 500 0))
                 (take 9 (Flash.fault_free [])) ).1.1 = Flash.AtWrite ∧
  Flash.writebuf (Flash.run (fun _ _ => 0) (Flash.boot [] (replicate 500 0))
                    (take 9 (Flash.fault_free []))).1.1 =
    replicate 500 (4 + Flash.count Flash.is_write
                         (Flash.run (fun _ _ => 0)
                            (Flash.boot [] (replicate 500 0))
                            (take 9 (Flash.fault_free []))).2).
Proof.
  assert (Flash.at_pc
            (Flash.run (fun _ _ => 0) (Flash.boot [] (replicate 500 0))
               (take 9 (Flash.fault_free []))).1.1 = Flash.AtWrite)
    as Hpc by (vm_compute; reflexivity).
  split; [reflexivity|]. split; [exact Hpc|].
  exact (proj1 (proj2
    (flash_test_writes_constant_block (fun _ _ => 0) [] (replicate 500 0)
       (take 9 (Flash.fault_free [])) eq_refl Hpc))).
Defined.

(** X15.  What the storage test prints and requests does not depend on the
    data read back: the dump loop prints [readbuf[len]], one past the end
    of the buffer, and nothing else reads [readbuf]. *)
Theorem flash_test_never_shows_read_data (past_end : Z → nat → Z)
    (rb wb : list Z) (replies : list Flash.reply) :
  Flash.run past_end (Flash.boot [] wb) (Flash.blank <$> replies) =
  (Flash.forget (Flash.run past_end (Flash.boot rb wb) replies).1.1,
   (Flash.run past_end (Flash.boot rb wb) replies).1.2,
   (Flash.run past_end (Flash.boot rb wb) replies).2).
Proof. apply (run_forget past_end replies (Flash.boot rb wb)). Qed.
